(** * A boundary-tag arena allocator (mem.c): model and properties

    The C file keeps two globals, [first_block] and [total_mem_size], and
    stores one [int size_status] word at the start of every block (and one
    more inside every free block).  This development embeds the four
    functions of mem.c, [Mem_Init], [Mem_Alloc], [Mem_Free] and [Mem_Dump],
    as functions over an explicit allocator state, statement by statement.

    Modelling conventions.
    - [int] is a 32-bit two's-complement integer: a [Z] in
      [-2^31, 2^31), every addition and subtraction wrapped by [Int.wrap];
      [/] and [%] are C's truncating [Z.quot] and [Z.rem]; [&] is [Z.land].
    - A pointer is an address, a [Z]; [NULL] is 0.  Adding [k] to a
      [block_tag*] moves it by [4 * k] bytes, adding to a [char*] by [k];
      pointer arithmetic itself does not wrap.  The casts [(int)ptr] of
      [Mem_Free] keep the low 32 bits of the address, read as a signed
      number: [Int.wrap].
    - The arena is the sequence of 4-byte words of the mapped region, held
      as a finite map from word address to value; a word never written
      reads 0 (the region comes from /dev/zero).
    - Dereferencing a pointer outside the mapped region, or one that is not
      4-byte aligned, is undefined behaviour in C: the model stops with a
      [fault].  mem.c has no test of its own for either, and what a
      machine does past such an access is not modelled: a statement about
      a computation that returns [Ok] speaks of the runs in which every
      access was to an aligned word of the region.  Loops take a bound on
      their number of iterations and stop with [OutOfFuel] when it is
      exhausted. *)

From Stdlib Require Import ZArith Lia List Bool.
From stdpp Require Import gmap.
Import ListNotations.
Local Open Scope Z_scope.

(** ** 32-bit [int] arithmetic *)

Module Int.

Definition min_signed : Z := - 2 ^ 31.
Definition max_signed : Z := 2 ^ 31 - 1.

Definition wrap (z : Z) : Z := (z + 2 ^ 31) mod 2 ^ 32 - 2 ^ 31.

Definition add (a b : Z) : Z := wrap (a + b).
Definition sub (a b : Z) : Z := wrap (a - b).

Definition in_range (z : Z) : Prop := min_signed <= z <= max_signed.

End Int.

(** ** Allocator state, faults and the state monad *)

(** The globals of mem.c, the static [allocated_once] of [Mem_Init], and the
    contents of the mapped region. *)
Record state : Type := mkState {
  first_block : Z;
  total_mem_size : Z;
  allocated_once : bool;
  heap : gmap Z Z
}.

Definition NULL : Z := 0.

Definition initial_state : state :=
  {| first_block := NULL; total_mem_size := 0;
     allocated_once := false; heap := ∅ |}.

Inductive fault : Type :=
| OutOfBounds (addr : Z)
| Misaligned (addr : Z)
| OutOfFuel.

Inductive outcome (A : Type) : Type :=
| Ok (a : A)
| Fault (f : fault).
Arguments Ok {A} a.
Arguments Fault {A} f.

Definition M (A : Type) : Type := state -> outcome (A * state).

Definition ret {A} (a : A) : M A := fun st => Ok (a, st).

Definition bind {A B} (k : A -> M B) (m : M A) : M B :=
  fun st => match m st with
            | Ok (a, st') => k a st'
            | Fault f => Fault f
            end.

#[global] Instance M_ret : MRet M := @ret.
#[global] Instance M_bind : MBind M := @bind.

Definition gets {A} (f : state -> A) : M A := fun st => Ok (f st, st).
Definition modify (f : state -> state) : M unit := fun st => Ok (tt, f st).
Definition throw {A} (f : fault) : M A := fun _ => Fault f.

(** [in_region st a]: the four bytes at [a] lie in the mapped region. *)
Definition in_region (st : state) (a : Z) : bool :=
  (first_block st <=? a) && (a + 4 <=? first_block st + total_mem_size st).

Definition aligned (a : Z) : bool := a mod 4 =? 0.

Definition check (a : Z) : M unit :=
  ok ← gets (fun st => in_region st a);
  if negb ok then throw (OutOfBounds a)
  else if negb (aligned a) then throw (Misaligned a)
  else ret tt.

Definition peek (st : state) (a : Z) : Z := default 0 (heap st !! a).

Definition poke (st : state) (a v : Z) : state :=
  {| first_block := first_block st;
     total_mem_size := total_mem_size st;
     allocated_once := allocated_once st;
     heap := <[a := v]> (heap st) |}.

(** [p->size_status] as an rvalue. *)
Definition load (a : Z) : M Z :=
  check a;; gets (fun st => peek st a).

(** [p->size_status = v]. *)
Definition store (a v : Z) : M unit :=
  check a;; modify (fun st => poke st a v).

(** [p + k] for [block_tag *p] (sizeof(block_tag) = 4). *)
Definition ptr_add (p k : Z) : Z := p + 4 * k.

(** ** Mem_Init *)

(** The environment of [Mem_Init]: the page size, the descriptor returned by
    [open], and the address returned by [mmap] ([None] for MAP_FAILED). *)
Record env : Type := mkEnv {
  pagesize : Z;
  fd : Z;
  space_ptr : option Z
}.

Definition Mem_Init (e : env) (sizeOfRegion : Z) : M Z :=
  once ← gets allocated_once;
  if once : bool then ret (-1) : M Z
  else if sizeOfRegion <=? 0 then ret (-1)
  else
    let padsize := Z.rem sizeOfRegion (pagesize e) in
    let padsize := Z.rem (Int.sub (pagesize e) padsize) (pagesize e) in
    let alloc_size := Int.add sizeOfRegion padsize in
    if fd e =? -1 then ret (-1)
    else match space_ptr e with
         | None =>
             modify (fun st => {| first_block := first_block st;
                                  total_mem_size := total_mem_size st;
                                  allocated_once := false;
                                  heap := heap st |});;
             ret (-1)
         | Some p =>
             modify (fun st => {| first_block := p;
                                  total_mem_size := alloc_size;
                                  allocated_once := true;
                                  heap := ∅ |});;
             store p alloc_size;;
             h ← load p;
             store p (Int.add h 2);;
             store (p + alloc_size - 4) alloc_size;;
             ret 0
         end.

(** ** Mem_Alloc *)

Definition round_up4 (size : Z) : Z :=
  if Z.rem size 4 =? 1 then Int.add size 3
  else if Z.rem size 4 =? 2 then Int.add size 2
  else if Z.rem size 4 =? 3 then Int.add size 1
  else size.

(** One iteration of the scanning loop (lines 105-123), entered with
    [current] below the end of the arena: the new [best_slot] and
    [current]. *)
Definition scan_step (size best_slot current : Z) : M (Z * Z) :=
  t_size ← load current;
  if negb (Z.land t_size 1 =? 0) then
    ret (best_slot, current + Int.sub t_size 3)
  else
    let t_size' := Int.sub t_size 2 in
    cur_ss ← load current;
    better ←
      (if size <=? cur_ss then
         if best_slot =? NULL then ret true
         else
           cur_ss' ← load current;
           best_ss ← load best_slot;
           ret (cur_ss' <? best_ss)
       else ret false);
    ret (if better : bool then current else best_slot, current + t_size').

Fixpoint scan (fuel : nat) (size best_slot current : Z) : M Z :=
  match fuel with
  | O => throw OutOfFuel
  | S fuel' =>
      fb ← gets first_block;
      total ← gets total_mem_size;
      if current <? fb + total then
        bc ← scan_step size best_slot current;
        scan fuel' size (fst bc) (snd bc)
      else ret best_slot
  end.

Definition Mem_Alloc (fuel : nat) (size : Z) : M Z :=
  if size <=? 0 then ret NULL
  else
    let size := round_up4 size in
    let is_busy := 1 in
    let prev_block_allocated := 2 in
    let header_size := 4 in
    let size := Int.add size header_size in
    fb ← gets first_block;
    best_slot ← scan fuel size NULL fb;
    if best_slot =? NULL then ret NULL
    else
      best_ss ← load best_slot;
      let preSplitSize := Int.sub best_ss prev_block_allocated in
      let newBlock := ptr_add best_slot header_size in
      store newBlock (Int.add (Int.add size is_busy) prev_block_allocated);;
      new_ss ← load newBlock;
      store (ptr_add newBlock (- header_size)) new_ss;;
      let splitBlock := ptr_add best_slot (Z.quot size 4) in
      store splitBlock
            (Int.add (Int.sub preSplitSize size) prev_block_allocated);;
      split_ss ← load splitBlock;
      let footer :=
        ptr_add
          (ptr_add (ptr_add splitBlock (Z.quot (Int.sub split_ss 2) 4))
                   (- Z.quot prev_block_allocated 4))
          (- 1) in
      store footer
            (Int.add (Int.sub preSplitSize size) prev_block_allocated);;
      ret newBlock.

(** ** Mem_Free *)

(** The guards of the four branches (lines 190, 200, 215, 225).  [&&]
    evaluates its right operand only when the left one holds. *)
Definition next_busy_prev_busy (coalescedBlock : Z) : M bool :=
  h ← load coalescedBlock;
  next ← load (ptr_add coalescedBlock (Z.quot (Int.sub h 2) 4));
  if negb (Z.land next 1 =? 0) then
    h' ← load coalescedBlock;
    ret (negb (Z.rem h' 4 =? 0))
  else ret false.

Definition next_busy_prev_free (coalescedBlock : Z) : M bool :=
  h ← load coalescedBlock;
  next ← load (ptr_add coalescedBlock (Z.quot h 4));
  if negb (Z.land next 1 =? 0) then
    h' ← load coalescedBlock;
    ret (Z.rem h' 4 =? 0)
  else ret false.

Definition next_free_prev_busy (coalescedBlock : Z) : M bool :=
  h ← load coalescedBlock;
  next ← load (ptr_add coalescedBlock (Z.quot (Int.sub h 2) 4));
  if Z.rem next 2 =? 0 then
    h' ← load coalescedBlock;
    ret (negb (Z.rem h' 4 =? 0))
  else ret false.

Definition next_free_prev_free (coalescedBlock : Z) : M bool :=
  h ← load coalescedBlock;
  next ← load (ptr_add coalescedBlock (Z.quot h 4));
  if Z.rem next 2 =? 0 then
    h' ← load coalescedBlock;
    ret (Z.rem h' 4 =? 0)
  else ret false.

(** Lines 192-196. *)
Definition free_both_busy (coalescedBlock : Z) : M unit :=
  h ← load coalescedBlock;
  v ← load coalescedBlock;
  store (ptr_add (ptr_add coalescedBlock (Z.quot (Int.sub h 2) 4)) (-4)) v;;
  h' ← load coalescedBlock;
  let next := ptr_add coalescedBlock (Z.quot (Int.sub h' 2) 4) in
  n ← load next;
  store next (Int.sub n 2).

(** Lines 202-211. *)
Definition free_prev_free (coalescedBlock : Z) : M unit :=
  h ← load coalescedBlock;
  let footer := ptr_add (ptr_add coalescedBlock (Z.quot h 4)) (-1) in
  h' ← load coalescedBlock;
  p ← load (ptr_add coalescedBlock (-4));
  store footer (Int.add h' p);;
  p' ← load (ptr_add coalescedBlock (-4));
  let coalescedBlock := ptr_add coalescedBlock (- Z.quot p' 4) in
  f ← load footer;
  store coalescedBlock f;;
  n ← load (ptr_add footer 1);
  store (ptr_add footer 1) (Int.sub n 2).

(** Lines 217-221. *)
Definition free_next_free (coalescedBlock : Z) : M unit :=
  h ← load coalescedBlock;
  h' ← load coalescedBlock;
  n ← load (ptr_add coalescedBlock (Z.quot (Int.sub h' 2) 4));
  store coalescedBlock (Int.sub (Int.add h n) 2);;
  h2 ← load coalescedBlock;
  v ← load coalescedBlock;
  store (ptr_add (ptr_add coalescedBlock (Z.quot (Int.sub h2 2) 4)) (-4)) v.

(** Lines 227-240. *)
Definition free_both_free (coalescedBlock : Z) : M unit :=
  temp ← load coalescedBlock;
  h ← load coalescedBlock;
  n ← load (ptr_add coalescedBlock (Z.quot h 4));
  store coalescedBlock (Int.sub n 2);;
  h' ← load coalescedBlock;
  let footer := ptr_add (ptr_add coalescedBlock (Z.quot h' 4)) (-4) in
  temp2 ← load coalescedBlock;
  p ← load (ptr_add coalescedBlock (-4));
  let coalescedBlock := ptr_add coalescedBlock (- Z.quot (Int.sub p 2) 4) in
  c ← load coalescedBlock;
  store coalescedBlock (Int.add (Int.add c temp) temp2);;
  c' ← load coalescedBlock;
  store footer c'.

(** The three guards of lines 166-178: [true] when [ptr] is refused. *)
Definition is_null (ptr : Z) : bool := ptr =? NULL.

Definition out_of_range (st : state) (ptr : Z) : bool :=
  (Int.wrap ptr <? Int.wrap (first_block st))
  || (Int.wrap ptr >? Int.add (Int.wrap (first_block st)) (total_mem_size st)).

Definition not_aligned (ptr : Z) : bool := negb (Z.rem (Int.wrap ptr) 4 =? 0).

Definition Mem_Free (ptr : Z) : M Z :=
  if is_null ptr then ret (-1)
  else
    oor ← gets (fun st => out_of_range st ptr);
    if oor : bool then ret (-1)
    else if not_aligned ptr then ret (-1)
    else
      let blockToFree := ptr in
      let coalescedBlock := ptr_add blockToFree (-4) in
      h ← load coalescedBlock;
      store coalescedBlock (Int.sub h 1);;
      c1 ← next_busy_prev_busy coalescedBlock;
      if c1 : bool then free_both_busy coalescedBlock;; ret 0
      else
        c2 ← next_busy_prev_free coalescedBlock;
        if c2 : bool then free_prev_free coalescedBlock;; ret 0
        else
          c3 ← next_free_prev_busy coalescedBlock;
          if c3 : bool then free_next_free coalescedBlock;; ret 0
          else
            c4 ← next_free_prev_free coalescedBlock;
            if c4 : bool then free_both_free coalescedBlock;; ret 0
            else ret 0.

(** ** Mem_Dump *)

(** One printed row of the block list. *)
Record row : Type := mkRow {
  No : Z;
  busy : bool;
  prev_busy : bool;
  t_begin : Z;
  t_end : Z;
  t_size : Z
}.

(** How the report ends: with the three totals, or cut short. *)
Inductive report_end : Type :=
| Totals (busy_size free_size : Z)
| Aborted (f : fault).

Fixpoint dump_loop (fuel : nat) (st : state)
    (current counter busy_size free_size : Z) : list row * report_end :=
  match fuel with
  | O => ([], Aborted OutOfFuel)
  | S fuel' =>
      if current <? first_block st + total_mem_size st then
        match load current st with
        | Fault f => ([], Aborted f)
        | Ok (t_size, _) =>
            let is_busy := negb (Z.land t_size 1 =? 0) in
            let t_size := if is_busy then Int.sub t_size 1 else t_size in
            let p_busy := negb (Z.land t_size 2 =? 0) in
            let t_size := if p_busy then Int.sub t_size 2 else t_size in
            let busy_size :=
              if is_busy then Int.add busy_size t_size else busy_size in
            let free_size :=
              if is_busy then free_size else Int.add free_size t_size in
            let r := {| No := counter; busy := is_busy; prev_busy := p_busy;
                        t_begin := current; t_end := current + t_size - 1;
                        t_size := t_size |} in
            let rest := dump_loop fuel' st (current + t_size)
                                  (Int.add counter 1) busy_size free_size in
            (r :: fst rest, snd rest)
        end
      else ([], Totals busy_size free_size)
  end.

Definition Mem_Dump (fuel : nat) (st : state) : list row * report_end :=
  dump_loop fuel st (first_block st) 1 0 0.

(** ** Client programs

    A client calls [Mem_Init] once and then a sequence of [Mem_Alloc] and
    [Mem_Free]; [Free i] releases the pointer that the [i]-th [Alloc] of the
    sequence (counting from 0) returned. *)

Inductive op : Type :=
| Alloc (size : Z)
| Free (i : nat).

(** What a call returned: a pointer, or the status of [Mem_Free]. *)
Inductive result : Type :=
| Ptr (p : Z)
| Status (c : Z).

Definition succeeded (r : result) : bool :=
  match r with
  | Ptr p => negb (p =? NULL)
  | Status c => c =? 0
  end.

Fixpoint run (fuel : nat) (ops : list op) (ptrs : list Z) : M (list result) :=
  match ops with
  | [] => ret []
  | Alloc size :: ops' =>
      p ← Mem_Alloc fuel size;
      rs ← run fuel ops' (ptrs ++ [p]);
      ret (Ptr p :: rs)
  | Free i :: ops' =>
      c ← Mem_Free (nth i ptrs NULL);
      rs ← run fuel ops' ptrs;
      ret (Status c :: rs)
  end.

(** [Mem_Init] on the pristine state, then the calls of [ops]. *)
Definition client (e : env) (sizeOfRegion : Z) (fuel : nat) (ops : list op)
  : outcome (list result * state) :=
  (c ← Mem_Init e sizeOfRegion;
   rs ← run fuel ops [];
   ret (Status c :: rs)) initial_state.

(** A 4096-byte page mapped at address 65536. *)
Definition env0 : env :=
  {| pagesize := 4096; fd := 3; space_ptr := Some 65536 |}.

(** Sizes of the rows of a report, and their sum. *)
Definition total_of (rows : list row) : Z :=
  fold_right Z.add 0 (map t_size rows).

(** Two neighbouring rows that are both free. *)
Fixpoint adjacent_free (rows : list row) : bool :=
  match rows with
  | r1 :: ((r2 :: _) as rest) =>
      (negb (busy r1) && negb (busy r2)) || adjacent_free rest
  | _ => false
  end.

(** The size field of a header or footer word: the word without its two
    flag bits. *)
Definition size_field (w : Z) : Z := w - Z.land w 3.

(** The last word of the block of row [r]. *)
Definition last_word (st : state) (r : row) : Z := peek st (t_end r - 3).

(** Every free row's last word carries the row's size. *)
Definition footers_match (st : state) (rows : list row) : bool :=
  forallb (fun r => busy r || (size_field (last_word st r) =? t_size r)) rows.

(** ** Arenas with a single free block *)

(** What [Mem_Init] and its environment guarantee of the globals: [mmap]
    returned a non-null, 4-byte aligned address; the size is a multiple of
    4 with room for the words [Mem_Alloc] and [Mem_Free] touch; the header
    of a block spanning the arena fits an [int]; and
    [(int)first_block + total_mem_size] does not overflow. *)
Definition arena_ok (st : state) : Prop :=
  0 < first_block st
  /\ first_block st mod 4 = 0
  /\ 20 <= total_mem_size st
  /\ total_mem_size st mod 4 = 0
  /\ total_mem_size st + 3 <= Int.max_signed
  /\ Int.wrap (first_block st) + total_mem_size st <= Int.max_signed.

(** The arena is one free block: its first word is the header of a free
    block of [total_mem_size] bytes whose predecessor counts as busy. *)
Definition single_free_block (st : state) : Prop :=
  peek st (first_block st) = total_mem_size st + 2.

(** The block list of such an arena. *)
Definition whole_arena_row (st : state) : row :=
  {| No := 1; busy := false; prev_busy := true;
     t_begin := first_block st;
     t_end := first_block st + total_mem_size st - 1;
     t_size := total_mem_size st |}.

(** The block size [Mem_Alloc] looks for: the request rounded up to a
    multiple of 4, plus the header (lines 79-98). *)
Definition need (size : Z) : Z := Int.add (round_up4 size) 4.

(** The words [Mem_Alloc] writes when it carves [n] bytes off the front of
    an arena with a single free block, in program order. *)
Definition split_state (st : state) (n : Z) : state :=
  let fb := first_block st in
  let T := total_mem_size st in
  poke (poke (poke (poke st (fb + 16) (n + 3)) fb (n + 3))
             (fb + n) (T - n + 2))
       (fb + T - 4) (T - n + 2).

(** The words [Mem_Free] writes when it releases the first block of the
    arena and the rest of the arena is one free block. *)
Definition merged_state (st : state) : state :=
  let fb := first_block st in
  let T := total_mem_size st in
  poke (poke (poke st fb (peek st fb - 1)) fb (T + 2)) (fb + T - 16) (T + 2).

(** The arena that [Mem_Init env0 4096] sets up. *)
Definition arena0 : state :=
  match Mem_Init env0 4096 initial_state with
  | Ok (_, st) => st
  | Fault _ => initial_state
  end.

(** ** Properties of computations *)

(** [m] leaves the two globals alone. *)
Definition keeps_globals {A} (m : M A) : Prop :=
  forall st a st', m st = Ok (a, st') ->
    first_block st' = first_block st
    /\ total_mem_size st' = total_mem_size st.

(** [m] returns 0 whenever it returns. *)
Definition returns_zero (m : M Z) : Prop :=
  forall st r st', m st = Ok (r, st') -> r = 0.

(** [m] leaves the whole state alone. *)
Definition read_only {A} (m : M A) : Prop :=
  forall st a st', m st = Ok (a, st') -> st' = st.

(** Lines 346-360 of [Mem_Dump]: the size of a row, from the header word. *)
Definition clear_flags (t_size : Z) : Z :=
  let t_size :=
    if negb (Z.land t_size 1 =? 0) then Int.sub t_size 1 else t_size in
  if negb (Z.land t_size 2 =? 0) then Int.sub t_size 2 else t_size.

(** Lines 273-276 of [Mem_Init]: the size rounded up to whole pages. *)
Definition page_round (pagesize sizeOfRegion : Z) : Z :=
  let padsize := Z.rem sizeOfRegion pagesize in
  let padsize := Z.rem (Int.sub pagesize padsize) pagesize in
  Int.add sizeOfRegion padsize.

(** The pointer is refused by one of the three guards of [Mem_Free]. *)
Definition refused (st : state) (ptr : Z) : bool :=
  is_null ptr || out_of_range st ptr || not_aligned ptr.

(** The state in which a client of the 4096-byte arena finishes. *)
Definition state_after (ops : list op) : state :=
  match client env0 4096 100 ops with
  | Ok (_, st) => st
  | Fault _ => initial_state
  end.

(** ** Block lists *)

(** A block as its header describes it: whether it is busy, and its size. *)
Definition block : Type := (bool * Z)%type.

(** The header word of a block (comment of lines 20-49): the size, plus 1
    when the block is busy, plus 2 when its predecessor is. *)
Definition header (prev_is_busy is_busy : bool) (size : Z) : Z :=
  size + (if is_busy then 1 else 0) + (if prev_is_busy then 2 else 0).

(** The bytes a list of blocks covers. *)
Fixpoint span (blocks : list block) : Z :=
  match blocks with
  | [] => 0
  | (_, n) :: rest => n + span rest
  end.

Definition busy_bytes (blocks : list block) : Z :=
  span (List.filter (fun b => fst b) blocks).

Definition free_bytes (blocks : list block) : Z :=
  span (List.filter (fun b => negb (fst b)) blocks).

(** Whether the last block of the list is busy; [prev] for the empty list. *)
Fixpoint last_busy (prev : bool) (blocks : list block) : bool :=
  match blocks with
  | [] => prev
  | (b, _) :: rest => last_busy b rest
  end.

(** The words from [cur] to [stop] hold the headers of [blocks], one block
    after the other, each header recording whether the block before it is
    busy ([prev] for the first). *)
Fixpoint chain (st : state) (cur : Z) (prev : bool) (blocks : list block)
    (stop : Z) : Prop :=
  match blocks with
  | [] => cur = stop
  | (b, n) :: rest =>
      peek st cur = header prev b n
      /\ 4 <= n /\ n mod 4 = 0
      /\ chain st (cur + n) b rest stop
  end.

(** The arena is exactly the blocks of [blocks]; the first block's
    predecessor counts as busy. *)
Definition layout (st : state) (blocks : list block) : Prop :=
  chain st (first_block st) true blocks
        (first_block st + total_mem_size st).

(** The rows [Mem_Dump] prints for a block list. *)
Fixpoint rows_of (cur counter : Z) (prev : bool) (blocks : list block)
  : list row :=
  match blocks with
  | [] => []
  | (b, n) :: rest =>
      {| No := counter; busy := b; prev_busy := prev;
         t_begin := cur; t_end := cur + n - 1; t_size := n |}
      :: rows_of (cur + n) (counter + 1) b rest
  end.

(** Busy blocks of the given sizes. *)
Definition busy_blocks (sizes : list Z) : list block := map (pair true) sizes.

(** The words [Mem_Alloc] writes when it carves [n] bytes off the front of
    the free block of [rest] bytes at [b], in program order. *)
Definition carve (st : state) (b n rest : Z) : state :=
  poke (poke (poke (poke st (b + 16) (n + 3)) b (n + 3))
             (b + n) (rest - n + 2))
       (b + rest - 4) (rest - n + 2).

(** The arena after allocations only: busy blocks of the given sizes, then
    one free block of [rest] bytes. *)
Definition alloc_only (st : state) (sizes : list Z) (rest : Z) : Prop :=
  layout st (busy_blocks sizes ++ [(false, rest)]).

(** Where the free block of such an arena starts. *)
Definition free_start (st : state) (sizes : list Z) : Z :=
  first_block st + span (busy_blocks sizes).

(** What a sound environment gives [Mem_Init] for a request of
    [sizeOfRegion] bytes: a descriptor, a page size that is a multiple of 4
    and at least 20, and a non-null, 4-byte aligned mapping whose addresses
    and page-rounded size fit an [int]. *)
Definition env_ok (e : env) (sizeOfRegion : Z) : Prop :=
  exists p,
    space_ptr e = Some p /\ fd e <> -1
    /\ 0 < p /\ p mod 4 = 0
    /\ 20 <= pagesize e /\ pagesize e mod 4 = 0
    /\ 0 < sizeOfRegion
    /\ sizeOfRegion + pagesize e + 3 <= Int.max_signed
    /\ Int.wrap p + sizeOfRegion + pagesize e <= Int.max_signed.

(** [best] is a candidate for a request of [size] bytes: the null pointer,
    or the address of a word of the arena that reads as the header of a
    free block of at least [size]. *)
Definition candidate (st : state) (size best : Z) : Prop :=
  best = NULL
  \/ (in_region st best = true /\ aligned best = true
      /\ Z.land (peek st best) 1 = 0 /\ size <= peek st best).

(** [m] leaves [f] of the state alone. *)
Definition preserves {A X} (f : state -> X) (m : M A) : Prop :=
  forall st a st', m st = Ok (a, st') -> f st' = f st.

(** The first [k] iterations of the scanning loop of [Mem_Alloc] (lines
    105-123): [best_slot] and [current] after them, or at the end of the
    loop when it ends before. *)
Fixpoint scan_steps (k : nat) (size best_slot current : Z) : M (Z * Z) :=
  match k with
  | O => ret (best_slot, current)
  | S k' =>
      fb ← gets first_block;
      total ← gets total_mem_size;
      if current <? fb + total then
        bc ← scan_step size best_slot current;
        scan_steps k' size (fst bc) (snd bc)
      else ret (best_slot, current)
  end.

(** A 4096-byte page mapped at address 2147479552, so that the arena ends at
    address 2^31, one past the largest [int]. *)
Definition env_high : env :=
  {| pagesize := 4096; fd := 3; space_ptr := Some 2147479552 |}.

(** The arena that [Mem_Init env_high 4096] sets up. *)
Definition arena_high : state :=
  match Mem_Init env_high 4096 initial_state with
  | Ok (_, st) => st
  | Fault _ => initial_state
  end.

(** The words [Mem_Free] writes when it releases the busy block of [n] bytes
    at [c], its predecessor being busy and its successor a free block of
    [m] bytes, in program order (lines 180-181 and 217-221). *)
Definition merged_right (st : state) (c n m : Z) : state :=
  poke (poke (poke st c (n + 2)) c (n + m + 2)) (c + n + m - 16) (n + m + 2).

(** The words [Mem_Free] writes when it releases the busy block of [n] bytes
    at [c], its predecessor being busy and its successor a busy block of
    [m] bytes, in program order (lines 180-181 and 192-196). *)
Definition freed_alone (st : state) (c n m : Z) : state :=
  poke (poke (poke st c (n + 2)) (c + n - 16) (n + 2)) (c + n) (m + 1).

(** * Properties *)

(** ** Facts about [int] arithmetic *)

Section IntFacts.

Lemma wrap_small z : Int.in_range z -> Int.wrap z = z.
Proof.
  unfold Int.in_range, Int.min_signed, Int.max_signed, Int.wrap. intros Hz.
  rewrite Z.mod_small; lia.
Qed.

Lemma wrap_range z : Int.in_range (Int.wrap z).
Proof.
  unfold Int.in_range, Int.min_signed, Int.max_signed, Int.wrap.
  pose proof (Z.mod_pos_bound (z + 2 ^ 31) (2 ^ 32)). lia.
Qed.

Lemma add_small a b : Int.in_range (a + b) -> Int.add a b = a + b.
Proof. apply wrap_small. Qed.

Lemma sub_small a b : Int.in_range (a - b) -> Int.sub a b = a - b.
Proof. apply wrap_small. Qed.

(** Wrapping twice is wrapping once, also under an offset. *)
Lemma wrap_wrap_add z k : Int.wrap (Int.wrap z + k) = Int.wrap (z + k).
Proof.
  unfold Int.wrap. f_equal.
  replace ((z + 2 ^ 31) mod 2 ^ 32 - 2 ^ 31 + k + 2 ^ 31)
    with ((z + 2 ^ 31) mod 2 ^ 32 + k) by lia.
  rewrite Zplus_mod_idemp_l. f_equal. lia.
Qed.

(** 4 divides 2^32, so wrapping keeps the residue modulo 4. *)
Lemma wrap_mod4 z : Int.wrap z mod 4 = z mod 4.
Proof.
  unfold Int.wrap.
  change (2 ^ 31) with 2147483648. change (2 ^ 32) with 4294967296.
  pose proof (Z.div_mod (z + 2147483648) 4294967296 ltac:(lia)) as Hd.
  replace ((z + 2147483648) mod 4294967296 - 2147483648)
    with (z + (- (1073741824 * ((z + 2147483648) / 4294967296))) * 4)
    by lia.
  apply Z_mod_plus_full.
Qed.

Lemma wrap_wrap_sub z k : Int.wrap (Int.wrap z - k) = Int.wrap (z - k).
Proof. exact (wrap_wrap_add z (- k)). Qed.

Lemma rem4_mod4 x : Z.rem x 4 = 0 <-> x mod 4 = 0.
Proof. Z.to_euclidean_division_equations. lia. Qed.

End IntFacts.

(** ** Running monadic code *)

Lemma bind_run {A B} (m : M A) (k : A -> M B) st :
  (m ≫= k) st
  = match m st with Ok (a, st') => k a st' | Fault f => Fault f end.
Proof. reflexivity. Qed.

Lemma bind_inv {A B} (m : M A) (k : A -> M B) st b st' :
  (m ≫= k) st = Ok (b, st') ->
  exists a st1, m st = Ok (a, st1) /\ k a st1 = Ok (b, st').
Proof.
  rewrite bind_run. destruct (m st) as [[a st1]|f]; [eauto | discriminate].
Qed.

(** Unfold the monad, and nothing else. *)
Ltac mred :=
  cbv beta iota delta [mbind M_bind bind gets ret modify throw];
  cbn [negb fst snd];
  cbv beta iota.

(** ** Loads and stores *)

Lemma in_region_true st a :
  first_block st <= a -> a + 4 <= first_block st + total_mem_size st ->
  in_region st a = true.
Proof. intros. unfold in_region. apply andb_true_intro. split; lia. Qed.

Lemma in_region_false st a :
  a < first_block st \/ first_block st + total_mem_size st < a + 4 ->
  in_region st a = false.
Proof.
  intros H. unfold in_region. apply andb_false_iff.
  destruct H; [left | right]; apply Z.leb_gt; lia.
Qed.

Lemma aligned_true a : a mod 4 = 0 -> aligned a = true.
Proof. intros. unfold aligned. lia. Qed.

Lemma check_run st a :
  in_region st a = true -> aligned a = true -> check a st = Ok (tt, st).
Proof. intros H1 H2. unfold check. mred. rewrite H1, H2. reflexivity. Qed.

Lemma check_out st a :
  in_region st a = false -> check a st = Fault (OutOfBounds a).
Proof. intros H1. unfold check. mred. rewrite H1. reflexivity. Qed.

Lemma load_run st a :
  in_region st a = true -> aligned a = true -> load a st = Ok (peek st a, st).
Proof.
  intros H1 H2. unfold load. rewrite bind_run, check_run by assumption.
  reflexivity.
Qed.

Lemma store_run st a v :
  in_region st a = true -> aligned a = true ->
  store a v st = Ok (tt, poke st a v).
Proof.
  intros H1 H2. unfold store. rewrite bind_run, check_run by assumption.
  reflexivity.
Qed.

Lemma store_out st a v :
  in_region st a = false -> store a v st = Fault (OutOfBounds a).
Proof.
  intros H1. unfold store. rewrite bind_run, check_out by assumption.
  reflexivity.
Qed.

Lemma peek_poke_eq st a v : peek (poke st a v) a = v.
Proof. unfold peek, poke. simpl. by rewrite lookup_insert_eq. Qed.

Lemma peek_poke_ne st a b v : a <> b -> peek (poke st a v) b = peek st b.
Proof. intros. unfold peek, poke. simpl. by rewrite lookup_insert_ne. Qed.

(** Side conditions of [load_run] and [store_run]. *)
Ltac region :=
  first [ apply in_region_true; simpl; lia
        | apply aligned_true; Z.to_euclidean_division_equations; lia ].

(** Remove the wraps of sums that stay in range. *)
Ltac int_small :=
  unfold Int.add, Int.sub;
  repeat match goal with
  | |- context [Int.wrap ?z] =>
      rewrite (wrap_small z)
        by (unfold Int.in_range, Int.min_signed, Int.max_signed in *; lia)
  end.

(** ** Flag bits *)

Lemma land_1 x : Z.land x 1 = x mod 2.
Proof. change 1 with (Z.ones 1). rewrite Z.land_ones by lia. reflexivity. Qed.

Lemma land_1_even x : x mod 2 = 0 -> (Z.land x 1 =? 0) = true.
Proof. intros. apply Z.eqb_eq. rewrite land_1. assumption. Qed.

Lemma land_3 x : Z.land x 3 = x mod 4.
Proof. change 3 with (Z.ones 2). rewrite Z.land_ones by lia. reflexivity. Qed.

Lemma land_2_test x : (Z.land x 2 =? 0) = ((x / 2) mod 2 =? 0).
Proof.
  assert (Hb : Z.testbit (Z.land x 2) 1 = Z.testbit x 1).
  { rewrite Z.land_spec. change (Z.testbit 2 1) with true. apply andb_true_r. }
  destruct (Z.eqb_spec (Z.land x 2) 0) as [H0|H0];
    destruct (Z.eqb_spec ((x / 2) mod 2) 0) as [H1|H1];
    try reflexivity; exfalso.
  - rewrite H0, Z.bits_0 in Hb. symmetry in Hb.
    apply Z.testbit_false in Hb; [|lia]. change (2 ^ 1) with 2 in Hb. lia.
  - apply H0. apply Z.bits_inj'. intros n Hn. rewrite Z.bits_0, Z.land_spec.
    destruct (Z.eq_dec n 1) as [->|Hne].
    + change (Z.testbit 2 1) with true. rewrite andb_true_r.
      apply Z.testbit_false; [lia|]. exact H1.
    + replace (Z.testbit 2 n) with false; [apply andb_false_r|].
      symmetry. change 2 with (2 ^ 1). apply Z.pow2_bits_false. congruence.
Qed.

Lemma land_2_set x : x mod 4 = 2 -> (Z.land x 2 =? 0) = false.
Proof.
  intros Hx. rewrite land_2_test. apply Z.eqb_neq.
  Z.to_euclidean_division_equations; lia.
Qed.

(** [Mem_Dump] removes each flag bit that is set: what is left is the size
    field. *)
Lemma clear_flags_size_field w :
  Int.min_signed + 3 <= w <= Int.max_signed ->
  clear_flags w = size_field w.
Proof.
  intros Hw. unfold clear_flags, size_field. rewrite land_3, land_1.
  destruct (Z.eqb_spec (w mod 2) 0) as [He|Ho]; cbn [negb].
  - rewrite land_2_test.
    destruct (Z.eqb_spec ((w / 2) mod 2) 0); cbn [negb]; int_small;
      Z.to_euclidean_division_equations; lia.
  - replace (Int.sub w 1) with (w - 1) by (int_small; lia).
    rewrite land_2_test.
    destruct (Z.eqb_spec (((w - 1) / 2) mod 2) 0); cbn [negb]; int_small;
      Z.to_euclidean_division_equations; lia.
Qed.

(** ** [Mem_Alloc] on an arena with a single free block *)

Lemma scan_S fuel size best cur st :
  scan (S fuel) size best cur st =
  if cur <? first_block st + total_mem_size st then
    match scan_step size best cur st with
    | Ok (bc, st') => scan fuel size (fst bc) (snd bc) st'
    | Fault f => Fault f
    end
  else Ok (best, st).
Proof. cbn [scan]. mred. destruct (cur <? _); reflexivity. Qed.

(** The block size computed from a positive request is a multiple of 4 and
    at least 8, unless the additions overflowed to a negative value. *)
Lemma need_cases size :
  0 < size <= Int.max_signed ->
  need size mod 4 = 0
  /\ Int.in_range (need size)
  /\ (need size < 0 \/ 8 <= need size).
Proof.
  intros Hs. split; [|split; [apply wrap_range|]].
  - unfold need, Int.add. rewrite wrap_mod4. unfold round_up4, Int.add.
    repeat match goal with
           | |- context [?a =? ?b] => destruct (Z.eqb_spec a b)
           end;
      rewrite ?Zplus_mod_idemp_l;
      try rewrite <- (Zplus_mod_idemp_l (Int.wrap _)), wrap_mod4,
                  Zplus_mod_idemp_l;
      Z.to_euclidean_division_equations; lia.
  - unfold need, round_up4, Int.add, Int.wrap, Int.max_signed in *.
    change (2 ^ 31) with 2147483648 in *.
    change (2 ^ 32) with 4294967296 in *.
    repeat match goal with
           | |- context [?a =? ?b] => destruct (Z.eqb_spec a b)
           end;
      Z.to_euclidean_division_equations; lia.
Qed.

Section SingleFreeBlock.

Variable st : state.
Hypothesis Hok : arena_ok st.
Hypothesis Hsingle : single_free_block st.

Lemma scan_step_single size :
  scan_step size NULL (first_block st) st
  = Ok ((if size <=? total_mem_size st + 2 then first_block st else NULL,
         first_block st + total_mem_size st), st).
Proof.
  destruct Hok as (Hpos & Hal & H20 & H4 & Hmax & Hcast).
  pose proof Hsingle as Hhdr. red in Hhdr.
  unfold scan_step. mred. rewrite load_run by region. rewrite Hhdr.
  rewrite land_1_even by (Z.to_euclidean_division_equations; lia). mred.
  rewrite load_run by region. rewrite Hhdr.
  replace (Int.sub (total_mem_size st + 2) 2) with (total_mem_size st)
    by (int_small; lia).
  destruct (size <=? total_mem_size st + 2); reflexivity.
Qed.

(** Two iterations are enough: one for the block, one to see the end. *)
Lemma scan_single size f :
  scan (S (S f)) size NULL (first_block st) st
  = Ok (if size <=? total_mem_size st + 2 then first_block st else NULL, st).
Proof.
  rewrite scan_S.
  replace (first_block st <? first_block st + total_mem_size st) with true
    by (symmetry; apply Z.ltb_lt; unfold arena_ok in Hok; lia).
  rewrite scan_step_single. cbn [fst snd].
  rewrite scan_S, Z.ltb_irrefl. reflexivity.
Qed.

(** A request that leaves at least 4 bytes is served from the front of the
    block. *)
Lemma Mem_Alloc_single_ok size f :
  0 < size <= Int.max_signed ->
  8 <= need size <= total_mem_size st - 4 ->
  Mem_Alloc (S (S f)) size st
  = Ok (first_block st + 16, split_state st (need size)).
Proof.
  intros Hs Hn.
  destruct (need_cases size Hs) as (Hn4 & Hnr & _).
  pose proof Hok as (Hpos & Hal & H20 & H4 & Hmax & Hcast).
  pose proof Hsingle as Hhdr. red in Hhdr.
  unfold Mem_Alloc.
  replace (size <=? 0) with false by (symmetry; apply Z.leb_gt; lia).
  cbv zeta. change (Int.add (round_up4 size) 4) with (need size).
  set (n := need size) in *.
  mred. rewrite scan_single.
  set (fb := first_block st) in *.
  set (T := total_mem_size st) in *.
  replace (n <=? T + 2) with true by (symmetry; apply Z.leb_le; lia).
  replace (fb =? NULL) with false
    by (symmetry; apply Z.eqb_neq; unfold NULL; lia).
  mred. rewrite load_run by region. rewrite Hhdr.
  unfold ptr_add.
  replace (Int.sub (T + 2) 2) with T by (int_small; lia).
  replace (Int.add (Int.add n 1) 2) with (n + 3) by (int_small; lia).
  ring_simplify (fb + 4 * 4).
  rewrite store_run by region. mred.
  rewrite load_run by region. rewrite peek_poke_eq.
  replace (fb + 16 + 4 * - (4)) with fb by lia.
  rewrite store_run by region. mred.
  replace (fb + 4 * Z.quot n 4) with (fb + n)
    by (Z.to_euclidean_division_equations; lia).
  replace (Int.add (Int.sub T n) 2) with (T - n + 2) by (int_small; lia).
  rewrite store_run by region. mred.
  rewrite load_run by region. rewrite peek_poke_eq.
  replace (fb + n + 4 * Z.quot (Int.sub (T - n + 2) 2) 4
           + 4 * - Z.quot 2 4 + 4 * -1)
    with (fb + T - 4)
    by (replace (Int.sub (T - n + 2) 2) with (T - n) by (int_small; lia);
        change (Z.quot 2 4) with 0;
        Z.to_euclidean_division_equations; lia).
  rewrite store_run by region. mred.
  reflexivity.
Qed.

(** No other request is served: a larger one finds no block, and one that
    fills the arena, or whose size overflowed, writes outside the region. *)
Lemma Mem_Alloc_single_inv size fuel p st' :
  0 < size <= Int.max_signed ->
  Mem_Alloc fuel size st = Ok (p, st') ->
  p <> NULL ->
  (exists f, fuel = S (S f)) /\ 8 <= need size <= total_mem_size st - 4.
Proof.
  intros Hs Hrun Hp.
  destruct (need_cases size Hs) as (Hn4 & Hnr & Hn8).
  pose proof Hok as (Hpos & Hal & H20 & H4 & Hmax & Hcast).
  pose proof Hsingle as Hhdr. red in Hhdr.
  unfold Mem_Alloc in Hrun.
  replace (size <=? 0) with false in Hrun by (symmetry; apply Z.leb_gt; lia).
  cbv zeta in Hrun.
  change (Int.add (round_up4 size) 4) with (need size) in Hrun.
  set (n := need size) in *.
  revert Hrun. mred.
  destruct fuel as [|[|f]].
  - discriminate.
  - rewrite scan_S.
    replace (first_block st <? first_block st + total_mem_size st) with true
      by (symmetry; apply Z.ltb_lt; lia).
    rewrite scan_step_single. discriminate.
  - rewrite scan_single.
    set (fb := first_block st) in *. set (T := total_mem_size st) in *.
    destruct (Z.leb_spec n (T + 2)) as [Hle|Hgt].
    2:{ change (NULL =? NULL) with true. mred. intros [= <- _]. congruence. }
    destruct (Z_le_dec n (T - 4)) as [Hle'|Hgt'];
      [destruct (Z_le_dec 8 n); [split; [eauto | lia] |] |].
    all: replace (fb =? NULL) with false
           by (symmetry; apply Z.eqb_neq; unfold NULL; lia).
    all: mred; rewrite load_run by region; mred.
    all: unfold ptr_add; ring_simplify (fb + 4 * 4).
    all: rewrite store_run by region; mred.
    all: rewrite load_run by region; mred.
    all: replace (fb + 16 + 4 * - (4)) with fb by lia.
    all: rewrite store_run by region; mred.
    all: rewrite store_out; [discriminate |].
    all: apply in_region_false; simpl; fold fb T.
    all: Z.to_euclidean_division_equations; lia.
Qed.

End SingleFreeBlock.

(** ** The casts of [Mem_Free] *)

Lemma wrap_offset st k :
  Int.wrap (first_block st) + total_mem_size st <= Int.max_signed ->
  0 <= k <= total_mem_size st ->
  Int.wrap (first_block st + k) = Int.wrap (first_block st) + k.
Proof.
  intros Hcast Hk.
  rewrite <- wrap_wrap_add. apply wrap_small.
  pose proof (wrap_range (first_block st)).
  unfold Int.in_range, Int.min_signed, Int.max_signed in *. lia.
Qed.

Lemma in_range_passes st k :
  Int.wrap (first_block st) + total_mem_size st <= Int.max_signed ->
  0 <= k <= total_mem_size st ->
  out_of_range st (first_block st + k) = false.
Proof.
  intros Hcast Hk. unfold out_of_range.
  rewrite wrap_offset by assumption.
  pose proof (wrap_range (first_block st)).
  rewrite add_small
    by (unfold Int.in_range, Int.min_signed, Int.max_signed in *; lia).
  apply orb_false_iff.
  split; [apply Z.ltb_ge | rewrite Z.gtb_ltb; apply Z.ltb_ge]; lia.
Qed.

Lemma aligned_passes p : p mod 4 = 0 -> not_aligned p = false.
Proof.
  intros Hp. unfold not_aligned.
  apply negb_false_iff, Z.eqb_eq, rem4_mod4.
  rewrite wrap_mod4. assumption.
Qed.

(** ** [Mem_Free] of the first block, the rest of the arena being free *)

Lemma Mem_Free_next_free st n :
  arena_ok st ->
  8 <= n <= total_mem_size st - 4 ->
  n mod 4 = 0 ->
  peek st (first_block st) = n + 3 ->
  peek st (first_block st + n) = total_mem_size st - n + 2 ->
  Mem_Free (first_block st + 16) st = Ok (0, merged_state st).
Proof.
  intros Hok Hn Hn4 Hhdr Hnext.
  pose proof Hok as (Hpos & Hal & H20 & H4 & Hmax & Hcast).
  unfold Mem_Free.
  replace (is_null (first_block st + 16)) with false
    by (symmetry; apply Z.eqb_neq; unfold NULL; lia).
  mred. rewrite in_range_passes by (assumption || lia).
  rewrite aligned_passes by (Z.to_euclidean_division_equations; lia).
  unfold merged_state. rewrite Hhdr.
  set (fb := first_block st) in *. set (T := total_mem_size st) in *.
  unfold ptr_add. replace (fb + 16 + 4 * -4) with fb by lia.
  mred. rewrite load_run by region. rewrite Hhdr. mred.
  replace (Int.sub (n + 3) 1) with (n + 2) by (int_small; lia).
  rewrite store_run by region. mred.
  assert (Hq : fb + 4 * Z.quot (Int.sub (n + 2) 2) 4 = fb + n).
  { replace (Int.sub (n + 2) 2) with n by (int_small; lia).
    Z.to_euclidean_division_equations; lia. }
  assert (Hq' : fb + 4 * Z.quot (n + 2) 4 = fb + n)
    by (Z.to_euclidean_division_equations; lia).
  assert (Heven : (Z.land (T - n + 2) 1 =? 0) = true)
    by (apply land_1_even; Z.to_euclidean_division_equations; lia).
  (* line 190: the next block is not busy *)
  unfold next_busy_prev_busy. mred.
  rewrite load_run by region. rewrite peek_poke_eq. mred.
  unfold ptr_add. rewrite Hq.
  rewrite load_run by region. rewrite peek_poke_ne by lia.
  rewrite Hnext, Heven. mred.
  (* line 200: nor is it with the other address *)
  unfold next_busy_prev_free. mred.
  rewrite load_run by region. rewrite peek_poke_eq. mred.
  unfold ptr_add. rewrite Hq'.
  rewrite load_run by region. rewrite peek_poke_ne by lia.
  rewrite Hnext, Heven. mred.
  (* line 215: the next block is free and the previous one busy *)
  unfold next_free_prev_busy. mred.
  rewrite load_run by region. rewrite peek_poke_eq. mred.
  unfold ptr_add. rewrite Hq.
  rewrite load_run by region. rewrite peek_poke_ne by lia. rewrite Hnext.
  replace (Z.rem (T - n + 2) 2 =? 0) with true
    by (symmetry; apply Z.eqb_eq; Z.to_euclidean_division_equations; lia).
  mred. rewrite load_run by region. rewrite peek_poke_eq. mred.
  replace (Z.rem (n + 2) 4 =? 0) with false
    by (symmetry; apply Z.eqb_neq; Z.to_euclidean_division_equations; lia).
  mred.
  (* lines 217-221 *)
  unfold free_next_free. mred.
  rewrite load_run by region. rewrite peek_poke_eq. mred.
  rewrite load_run by region. rewrite peek_poke_eq. mred.
  unfold ptr_add. rewrite Hq.
  rewrite load_run by region. rewrite peek_poke_ne by lia.
  rewrite Hnext. mred.
  replace (Int.sub (Int.add (n + 2) (T - n + 2)) 2) with (T + 2)
    by (unfold Int.sub, Int.add; rewrite wrap_wrap_sub;
        rewrite wrap_small;
        unfold Int.in_range, Int.min_signed, Int.max_signed in *; lia).
  rewrite store_run by region. mred.
  rewrite load_run by region. rewrite peek_poke_eq. mred.
  rewrite load_run by region. rewrite peek_poke_eq. mred.
  replace (fb + 4 * Z.quot (Int.sub (T + 2) 2) 4 + 4 * -4)
    with (fb + T - 16)
    by (replace (Int.sub (T + 2) 2) with T by (int_small; lia);
        Z.to_euclidean_division_equations; lia).
  rewrite store_run by region. mred.
  replace (n + 3 - 1) with (n + 2) by lia.
  reflexivity.
Qed.

(** ** [Mem_Dump] of an arena with a single free block *)

Lemma dump_loop_end st f c b fr :
  dump_loop f st (first_block st + total_mem_size st) c b fr
  = match f with
    | O => ([], Aborted OutOfFuel)
    | S _ => ([], Totals b fr)
    end.
Proof. destruct f; cbn [dump_loop]; [|rewrite Z.ltb_irrefl]; reflexivity. Qed.

Lemma dump_loop_single st f :
  arena_ok st -> single_free_block st ->
  dump_loop (S f) st (first_block st) 1 0 0
  = ([whole_arena_row st],
     snd (dump_loop f st (first_block st + total_mem_size st) 2 0
            (total_mem_size st))).
Proof.
  intros (Hpos & Hal & H20 & H4 & Hmax & Hcast) Hhdr. red in Hhdr.
  cbn [dump_loop].
  replace (first_block st <? first_block st + total_mem_size st) with true
    by (symmetry; apply Z.ltb_lt; lia).
  rewrite load_run by region. rewrite Hhdr.
  rewrite land_1_even by (Z.to_euclidean_division_equations; lia).
  cbn [negb]. cbv zeta.
  rewrite land_2_set by (Z.to_euclidean_division_equations; lia).
  cbn [negb].
  replace (Int.sub (total_mem_size st + 2) 2) with (total_mem_size st)
    by (int_small; lia).
  replace (Int.add 0 (total_mem_size st)) with (total_mem_size st)
    by (int_small; lia).
  change (Int.add 1 1) with 2.
  rewrite !dump_loop_end. destruct f; reflexivity.
Qed.

Lemma Mem_Dump_single st f :
  arena_ok st -> single_free_block st ->
  Mem_Dump (S (S f)) st
  = ([whole_arena_row st], Totals 0 (total_mem_size st)).
Proof.
  intros Hok Hs. unfold Mem_Dump.
  rewrite dump_loop_single, dump_loop_end by assumption. reflexivity.
Qed.

(** The report of such an arena depends on the globals only. *)
Lemma Mem_Dump_same st st' fuel :
  arena_ok st -> single_free_block st -> single_free_block st' ->
  first_block st' = first_block st ->
  total_mem_size st' = total_mem_size st ->
  Mem_Dump fuel st' = Mem_Dump fuel st.
Proof.
  intros Hok Hs Hs' Hfb HT.
  assert (Hok' : arena_ok st')
    by (unfold arena_ok; rewrite Hfb, HT; exact Hok).
  unfold Mem_Dump. destruct fuel as [|f]; [reflexivity|].
  rewrite !dump_loop_single, !dump_loop_end by assumption.
  unfold whole_arena_row. rewrite Hfb, HT. reflexivity.
Qed.

(** ** Steps of the two traversals *)

(** A row of [Mem_Dump] has the size field of the header at its start, and
    the next row starts that many bytes later. *)
Lemma dump_loop_row st f cur c b fr :
  cur < first_block st + total_mem_size st ->
  in_region st cur = true ->
  aligned cur = true ->
  Int.min_signed + 3 <= peek st cur <= Int.max_signed ->
  exists r b' fr',
    dump_loop (S f) st cur c b fr
    = (r :: fst (dump_loop f st (cur + size_field (peek st cur))
                   (Int.add c 1) b' fr'),
       snd (dump_loop f st (cur + size_field (peek st cur))
              (Int.add c 1) b' fr'))
    /\ t_begin r = cur
    /\ t_size r = size_field (peek st cur)
    /\ busy r = negb (Z.land (peek st cur) 1 =? 0).
Proof.
  intros Hlt Hin Hal Hw. cbn [dump_loop].
  apply Z.ltb_lt in Hlt. rewrite Hlt, load_run by assumption.
  cbv zeta. fold (clear_flags (peek st cur)).
  rewrite clear_flags_size_field by assumption.
  eexists _, _, _. split; [reflexivity|]. auto.
Qed.

Lemma scan_step_busy st size best cur :
  in_region st cur = true ->
  aligned cur = true ->
  Z.land (peek st cur) 1 <> 0 ->
  scan_step size best cur st
  = Ok ((best, cur + Int.sub (peek st cur) 3), st).
Proof.
  intros Hin Hal Hb. unfold scan_step. mred.
  rewrite load_run by assumption.
  apply Z.eqb_neq in Hb. rewrite Hb. reflexivity.
Qed.

(** The header of a busy block whose predecessor is free is its size plus 1:
    subtracting 3 falls 2 bytes short of the next header. *)
Lemma busy_prev_free_short w :
  w mod 4 = 1 -> Int.min_signed + 3 <= w <= Int.max_signed ->
  Z.land w 1 <> 0 /\ Int.sub w 3 = size_field w - 2.
Proof.
  intros Hm Hw. unfold size_field. rewrite land_1, land_3.
  split; [Z.to_euclidean_division_equations; lia|].
  int_small. lia.
Qed.

(** So the scan of [Mem_Alloc] cannot get past a busy block whose predecessor
    is free: its next read is 2 bytes before the next header. *)
Lemma scan_faults_after_busy_prev_free st fuel size best cur :
  cur < first_block st + total_mem_size st ->
  in_region st cur = true ->
  aligned cur = true ->
  peek st cur mod 4 = 1 ->
  5 <= peek st cur <= Int.max_signed ->
  cur + size_field (peek st cur) <= first_block st + total_mem_size st ->
  let next := cur + size_field (peek st cur) - 2 in
  scan (S (S fuel)) size best cur st
  = Fault (if in_region st next then Misaligned next else OutOfBounds next).
Proof.
  intros Hlt Hin Hal Hm Hw Hend c.
  destruct (busy_prev_free_short (peek st cur) Hm) as [Hb Hadv];
    [unfold Int.min_signed; lia|].
  rewrite scan_S. apply Z.ltb_lt in Hlt. rewrite Hlt.
  rewrite scan_step_busy by assumption. cbn [fst snd]. rewrite Hadv.
  replace (cur + (size_field (peek st cur) - 2)) with c by (unfold c; lia).
  assert (Hc4 : c mod 4 = 2).
  { unfold c, size_field, aligned in *. rewrite land_3.
    apply Z.eqb_eq in Hal. Z.to_euclidean_division_equations; lia. }
  rewrite scan_S.
  replace (c <? first_block st + total_mem_size st) with true
    by (symmetry; apply Z.ltb_lt; unfold c; lia).
  unfold scan_step, load, check. mred.
  destruct (in_region st c); mred; [|reflexivity].
  replace (aligned c) with false
    by (symmetry; unfold aligned; apply Z.eqb_neq; lia).
  reflexivity.
Qed.

(** ** What [Mem_Alloc] returns *)

Lemma ro_ret {A} (a : A) : read_only (ret a).
Proof. intros st a' st' [= _ <-]. reflexivity. Qed.

Lemma ro_gets {A} (f : state -> A) : read_only (gets f).
Proof. intros st a' st' [= _ <-]. reflexivity. Qed.

Lemma ro_throw {A} f : read_only (@throw A f).
Proof. intros st a st'. discriminate. Qed.

Lemma ro_bind {A B} (m : M A) (k : A -> M B) :
  read_only m -> (forall a, read_only (k a)) -> read_only (m ≫= k).
Proof.
  intros Hm Hk st b st' H.
  apply bind_inv in H as (a & st1 & H1 & H2).
  apply Hm in H1 as ->. exact (Hk a _ _ _ H2).
Qed.

Lemma ro_if {A} (c : bool) (m1 m2 : M A) :
  read_only m1 -> read_only m2 -> read_only (if c then m1 else m2).
Proof. destruct c; auto. Qed.

Lemma ro_load a : read_only (load a).
Proof.
  unfold load, check.
  repeat first [ apply ro_ret | apply ro_gets | apply ro_throw | apply ro_if
               | apply ro_bind; [|intros ?] ].
Qed.

Ltac ro :=
  repeat first [ apply ro_load | apply ro_ret | apply ro_gets | apply ro_throw
               | apply ro_if | apply ro_bind; [|intros ?] ].

Lemma ro_scan_step size best cur : read_only (scan_step size best cur).
Proof. unfold scan_step. ro. Qed.

Lemma ro_scan fuel : forall size best cur, read_only (scan fuel size best cur).
Proof.
  induction fuel as [|fuel IH]; intros size best cur; cbn [scan].
  - apply ro_throw.
  - apply ro_bind; [apply ro_gets|intros fb].
    apply ro_bind; [apply ro_gets|intros total].
    apply ro_if; [|apply ro_ret].
    apply ro_bind; [apply ro_scan_step|intros bc]. apply IH.
Qed.

(** A non-null result is the block the scan selected, plus 16 bytes. *)
Lemma Mem_Alloc_result fuel size st p st' :
  Mem_Alloc fuel size st = Ok (p, st') ->
  p <> NULL ->
  exists best_slot,
    scan fuel (need size) NULL (first_block st) st = Ok (best_slot, st)
    /\ best_slot <> NULL
    /\ p = best_slot + 16.
Proof.
  unfold Mem_Alloc. intros H Hp.
  destruct (size <=? 0); [injection H as <- _; congruence|].
  cbv zeta in H. change (Int.add (round_up4 size) 4) with (need size) in H.
  apply bind_inv in H as (fb & st0 & Hg & H).
  injection Hg as <- <-.
  destruct (bind_inv _ _ _ _ _ H) as [b [st1 [Hscan H']]].
  pose proof (ro_scan _ _ _ _ _ _ _ Hscan) as Hst. subst st1.
  exists b. split; [exact Hscan|].
  destruct (b =? NULL) eqn:Hne;
    [injection H' as <- _; congruence|].
  apply Z.eqb_neq in Hne. split; [exact Hne|].
  repeat (apply bind_inv in H' as (? & ? & _ & H')).
  injection H' as <- _. unfold ptr_add. lia.
Qed.

(** ** [Mem_Init] *)

Lemma page_round_spec P n :
  0 < P -> 0 < n -> n + P <= Int.max_signed ->
  n <= page_round P n < n + P /\ (P | page_round P n).
Proof.
  intros HP Hn Hmax. unfold page_round. cbv zeta.
  pose proof (Z.rem_bound_pos n P ltac:(lia) HP) as Hr.
  pose proof (Z.quot_rem' n P) as Hq.
  set (r := Z.rem n P) in *.
  replace (Int.sub P r) with (P - r) by (int_small; lia).
  pose proof (Z.rem_bound_pos (P - r) P ltac:(lia) HP) as Hr'.
  pose proof (Z.quot_rem' (P - r) P) as Hq'.
  set (pad := Z.rem (P - r) P) in *.
  assert (Hq01 : Z.quot (P - r) P = 0 \/ Z.quot (P - r) P = 1) by nia.
  replace (Int.add n pad) with (n + pad) by (int_small; lia).
  split; [nia|].
  exists (Z.quot n P + 1 - Z.quot (P - r) P). nia.
Qed.

(** A successful [Mem_Init] sets up an arena with a single free block. *)
Lemma Mem_Init_arena e n p :
  space_ptr e = Some p -> fd e <> -1 ->
  0 < p -> p mod 4 = 0 ->
  20 <= pagesize e -> pagesize e mod 4 = 0 ->
  0 < n -> n + pagesize e + 3 <= Int.max_signed ->
  Int.wrap p + n + pagesize e <= Int.max_signed ->
  exists st,
    Mem_Init e n initial_state = Ok (0, st)
    /\ arena_ok st /\ single_free_block st
    /\ first_block st = p
    /\ total_mem_size st = page_round (pagesize e) n.
Proof.
  intros Hp Hfd Hp0 Hp4 HP20 HP4 Hn Hmax Hcast.
  destruct (page_round_spec (pagesize e) n) as (Hr & Hdiv); try lia.
  assert (H4 : page_round (pagesize e) n mod 4 = 0).
  { apply Z.mod_divide; [lia|]. apply Z.divide_trans with (pagesize e); [|exact Hdiv].
    apply Z.mod_divide; [lia|assumption]. }
  assert (H20 : 20 <= page_round (pagesize e) n).
  { destruct Hdiv as [k Hk].
    assert (0 < k) by (apply (Z.mul_pos_cancel_r k (pagesize e)); lia).
    nia. }
  unfold Mem_Init. mred. cbn [allocated_once initial_state].
  replace (n <=? 0) with false by (symmetry; apply Z.leb_gt; lia).
  change (Int.add n (Z.rem (Int.sub (pagesize e) (Z.rem n (pagesize e))) (pagesize e)))
    with (page_round (pagesize e) n).
  set (T := page_round (pagesize e) n) in *.
  replace (fd e =? -1) with false by (symmetry; apply Z.eqb_neq; assumption).
  rewrite Hp. mred.
  rewrite store_run by region. mred.
  rewrite load_run by region. rewrite peek_poke_eq. mred.
  replace (Int.add T 2) with (T + 2) by (int_small; lia).
  rewrite store_run by region. mred.
  rewrite store_run by region. mred.
  eexists. split; [reflexivity|].
  split; [|split; [|split; reflexivity]].
  - unfold arena_ok. cbn [first_block total_mem_size poke]. repeat split; lia.
  - unfold single_free_block. cbn [first_block total_mem_size poke].
    rewrite peek_poke_ne by lia. apply peek_poke_eq.
Qed.

(** ** Round trip *)


(** ** What [Mem_Free] returns, and what it leaves alone *)

Create HintDb globals.

Lemma keeps_ret {A} (a : A) : keeps_globals (ret a).
Proof. intros st a' st' [= _ <-]. auto. Qed.

Lemma keeps_gets {A} (f : state -> A) : keeps_globals (gets f).
Proof. intros st a' st' [= _ <-]. auto. Qed.

Lemma keeps_throw {A} f : keeps_globals (@throw A f).
Proof. intros st a st'. discriminate. Qed.

Lemma keeps_bind {A B} (m : M A) (k : A -> M B) :
  keeps_globals m -> (forall a, keeps_globals (k a)) ->
  keeps_globals (m ≫= k).
Proof.
  intros Hm Hk st b st' H.
  apply bind_inv in H as (a & st1 & H1 & H2).
  destruct (Hm _ _ _ H1) as [E1 E2]. destruct (Hk a _ _ _ H2) as [E3 E4].
  split; congruence.
Qed.

Lemma keeps_if {A} (c : bool) (m1 m2 : M A) :
  keeps_globals m1 -> keeps_globals m2 ->
  keeps_globals (if c then m1 else m2).
Proof. destruct c; auto. Qed.

Lemma keeps_check a : keeps_globals (check a).
Proof.
  unfold check. apply keeps_bind; [apply keeps_gets|]. intros ok.
  repeat apply keeps_if;
    first [apply keeps_throw | apply keeps_ret].
Qed.

Lemma keeps_load a : keeps_globals (load a).
Proof.
  unfold load. apply keeps_bind; [apply keeps_check|].
  intros _. apply keeps_gets.
Qed.

Lemma keeps_store a v : keeps_globals (store a v).
Proof.
  unfold store. apply keeps_bind; [apply keeps_check|].
  intros _ st u st' [= _ <-]. auto.
Qed.

#[local] Hint Resolve keeps_load keeps_store keeps_check : globals.
#[local] Hint Extern 0 (keeps_globals (ret _)) => apply keeps_ret : globals.
#[local] Hint Extern 0 (keeps_globals (gets _)) => apply keeps_gets : globals.

(** Walk down a computation built from binds and conditionals. *)
Ltac keeps :=
  repeat first
    [ solve [auto with globals]
    | apply keeps_if
    | apply keeps_bind; [|intros ?] ].

Lemma Mem_Free_keeps_globals ptr : keeps_globals (Mem_Free ptr).
Proof.
  unfold Mem_Free. cbv zeta.
  unfold next_busy_prev_busy, next_busy_prev_free, next_free_prev_busy,
    next_free_prev_free, free_both_busy, free_prev_free, free_next_free,
    free_both_free.
  keeps.
Qed.

Lemma zero_ret : returns_zero (ret 0).
Proof. intros st r st' [= <- _]. reflexivity. Qed.

Lemma zero_bind {A} (m : M A) (k : A -> M Z) :
  (forall a, returns_zero (k a)) -> returns_zero (m ≫= k).
Proof.
  intros Hk st r st' H.
  apply bind_inv in H as (a & st1 & _ & H2). exact (Hk a _ _ _ H2).
Qed.

Lemma zero_if (c : bool) (m1 m2 : M Z) :
  returns_zero m1 -> returns_zero m2 -> returns_zero (if c then m1 else m2).
Proof. destruct c; auto. Qed.

(** [Mem_Free] returns -1 exactly when one of its three guards refuses the
    pointer, and then leaves the state as it was; past the guards it
    returns 0 whenever it returns. *)
Lemma Mem_Free_status ptr st r st' :
  Mem_Free ptr st = Ok (r, st') ->
  (refused st ptr = true /\ r = -1 /\ st' = st)
  \/ (refused st ptr = false /\ r = 0).
Proof.
  unfold Mem_Free, refused. intros H.
  destruct (is_null ptr); [left; injection H as <- <-; auto|].
  rewrite bind_run in H. unfold gets at 1 in H. cbv beta iota in H.
  destruct (out_of_range st ptr); [left; injection H as <- <-; auto|].
  destruct (not_aligned ptr); [left; injection H as <- <-; auto|].
  right. split; [reflexivity|].
  revert H. cbv zeta.
  match goal with |- ?m st = _ -> _ => assert (Hz : returns_zero m) end.
  { repeat first [ apply zero_ret | apply zero_if | apply zero_bind; intros ? ]. }
  apply Hz.
Qed.

Lemma Mem_Free_refused ptr st :
  refused st ptr = true -> Mem_Free ptr st = Ok (-1, st).
Proof.
  unfold Mem_Free, refused. intros H.
  destruct (is_null ptr); [reflexivity|].
  rewrite bind_run. unfold gets at 1. cbv beta iota.
  destruct (out_of_range st ptr); [reflexivity|].
  destruct (not_aligned ptr); [reflexivity | discriminate H].
Qed.

(** ** The range check *)

Lemma out_of_range_spec st ptr :
  Int.wrap (first_block st) + total_mem_size st <= Int.max_signed ->
  0 <= total_mem_size st ->
  out_of_range st ptr = true
  <-> Int.wrap ptr < Int.wrap (first_block st)
      \/ Int.wrap (first_block st) + total_mem_size st < Int.wrap ptr.
Proof.
  intros Hcast HT. unfold out_of_range.
  pose proof (wrap_range (first_block st)).
  rewrite add_small
    by (unfold Int.in_range, Int.min_signed, Int.max_signed in *; lia).
  rewrite orb_true_iff, Z.ltb_lt, Z.gtb_ltb, Z.ltb_lt. reflexivity.
Qed.

(** C10, as amended.  Provided [(int)first_block + total_mem_size] does not
    overflow, the range check of [Mem_Free] refuses exactly the pointers whose [int]
    value is below that of [first_block] or above that of
    [first_block + total_mem_size]: of the addresses [first_block + k]
    around the arena, exactly those with [k < 0] or [total_mem_size < k].
    The address one past the end of the arena passes the check, and when it
    is non-null and 4-byte aligned [Mem_Free] does not refuse it: it returns
    0 if it returns. *)
Theorem one_past_the_end_passes st :
  0 <= total_mem_size st ->
  Int.wrap (first_block st) + total_mem_size st <= Int.max_signed ->
  (forall ptr,
     out_of_range st ptr = true
     <-> Int.wrap ptr < Int.wrap (first_block st)
         \/ Int.wrap (first_block st) + total_mem_size st < Int.wrap ptr)
  /\ (forall k,
        Int.in_range (Int.wrap (first_block st) + k) ->
        out_of_range st (first_block st + k) = true
        <-> k < 0 \/ total_mem_size st < k)
  /\ out_of_range st (first_block st + total_mem_size st) = false
  /\ (first_block st + total_mem_size st <> NULL ->
      (first_block st + total_mem_size st) mod 4 = 0 ->
      refused st (first_block st + total_mem_size st) = false
      /\ forall r st',
           Mem_Free (first_block st + total_mem_size st) st = Ok (r, st') ->
           r = 0).
Proof.
  intros HT Hcast.
  assert (Hpass : out_of_range st (first_block st + total_mem_size st) = false)
    by (apply in_range_passes; [assumption | lia]).
  split; [intros ptr; apply out_of_range_spec; assumption|].
  split.
  { intros k Hk. rewrite out_of_range_spec by assumption.
    rewrite <- wrap_wrap_add, (wrap_small _ Hk). lia. }
  split; [exact Hpass|].
  intros Hnull Hal.
  assert (Hr : refused st (first_block st + total_mem_size st) = false).
  { unfold refused. rewrite Hpass, aligned_passes by assumption.
    unfold is_null. apply Z.eqb_neq in Hnull. rewrite Hnull. reflexivity. }
  split; [exact Hr|].
  intros r st' H.
  destruct (Mem_Free_status _ _ _ _ H) as [(Hr' & _) | (_ & ->)];
    [congruence | reflexivity].
Qed.

(** ** A second [Mem_Free] of the same pointer *)

Lemma refused_same st st' ptr :
  first_block st' = first_block st ->
  total_mem_size st' = total_mem_size st ->
  refused st' ptr = refused st ptr.
Proof. intros Hfb HT. unfold refused, out_of_range. rewrite Hfb, HT. reflexivity. Qed.

(** C8, as amended.  [Mem_Free] has no check for a block that is already
    free: once [Mem_Free ptr] has returned 0, a second [Mem_Free ptr] passes
    the same three guards (null, range, alignment) and is not refused; it
    returns 0 if it returns. *)
Theorem second_free_not_refused ptr st st1 :
  Mem_Free ptr st = Ok (0, st1) ->
  refused st1 ptr = false
  /\ forall r st2, Mem_Free ptr st1 = Ok (r, st2) -> r = 0.
Proof.
  intros H1.
  destruct (Mem_Free_keeps_globals ptr _ _ _ H1) as [Hfb HT].
  assert (Hr : refused st1 ptr = false).
  { rewrite (refused_same st st1) by assumption.
    destruct (Mem_Free_status _ _ _ _ H1) as [(_ & Hc & _) | (Hr & _)];
      [discriminate Hc | exact Hr]. }
  split; [exact Hr|].
  intros r st2 H2.
  destruct (Mem_Free_status _ _ _ _ H2) as [(Hr' & _) | (_ & ->)];
    [congruence | reflexivity].
Qed.

(** ** Runs of concrete clients *)

Ltac run_client :=
  eexists _, _; split; [vm_compute; reflexivity | repeat split; vm_compute; try reflexivity].

(** C1 (conservation).  Allocating 12, 4 and 4 bytes and freeing the three
    blocks in the order of their allocation succeeds call by call, and
    leaves a 4096-byte arena whose block list is a free block of 24 bytes
    followed by a free block of 8136 bytes: the sizes add up to 8160. *)
Theorem conservation_broken :
  exists rs st,
    client env0 4096 100
      [Alloc 12; Alloc 4; Alloc 4; Free 0; Free 1; Free 2] = Ok (rs, st)
    /\ forallb succeeded rs = true
    /\ total_mem_size st = 4096
    /\ Mem_Dump 10 st =
         ([ {| No := 1; busy := false; prev_busy := true;
               t_begin := 65536; t_end := 65559; t_size := 24 |};
            {| No := 2; busy := false; prev_busy := false;
               t_begin := 65560; t_end := 73695; t_size := 8136 |} ],
          Totals 0 8160)
    /\ total_of (fst (Mem_Dump 10 st)) = 8160.
Proof. run_client. Qed.

(** C2 (no adjacent free blocks).  Allocating four 12-byte payloads and
    freeing the first three in order leaves, after the last successful
    [Mem_Free], a free block of 32 bytes directly followed by a free block
    of 16 bytes. *)
Theorem adjacent_free_after_free :
  exists rs st,
    client env0 4096 100
      [Alloc 12; Alloc 12; Alloc 12; Alloc 12; Free 0; Free 1; Free 2]
      = Ok (rs, st)
    /\ forallb succeeded rs = true
    /\ Mem_Dump 10 st =
         ([ {| No := 1; busy := false; prev_busy := true;
               t_begin := 65536; t_end := 65567; t_size := 32 |};
            {| No := 2; busy := false; prev_busy := false;
               t_begin := 65568; t_end := 65583; t_size := 16 |};
            {| No := 3; busy := true; prev_busy := false;
               t_begin := 65584; t_end := 65599; t_size := 16 |};
            {| No := 4; busy := false; prev_busy := true;
               t_begin := 65600; t_end := 69631; t_size := 4032 |} ],
          Totals 16 4080)
    /\ adjacent_free (fst (Mem_Dump 10 st)) = true.
Proof. run_client. Qed.

(** C5 (returned reference).  The first [Mem_Alloc 4] on a fresh arena
    carves the block [65536, 65543] and returns 65552: sixteen bytes past
    the start of the block, beyond its last byte, not the word after its
    header (65540). *)
Theorem alloc_returns_sixteen_past_header :
  exists rs st,
    client env0 4096 100 [Alloc 4] = Ok (rs, st)
    /\ rs = [Status 0; Ptr (65536 + 16)]
    /\ Mem_Dump 10 st =
         ([ {| No := 1; busy := true; prev_busy := true;
               t_begin := 65536; t_end := 65543; t_size := 8 |};
            {| No := 2; busy := false; prev_busy := true;
               t_begin := 65544; t_end := 69631; t_size := 4088 |} ],
          Totals 8 4088).
Proof. run_client. Qed.

(** C6 (no-split threshold).  [Mem_Alloc 4088] needs 4092 of the 4096 bytes
    of the only free block; the 4 bytes left over are fewer than a header
    and a footer, yet the block is split and a free block of 4 bytes
    appears.  [Mem_Alloc 4092] needs the whole block, and writes the header
    of an empty remainder at 69632, the first address past the arena. *)
Theorem alloc_splits_below_threshold :
  exists rs st,
    client env0 4096 100 [Alloc 4088] = Ok (rs, st)
    /\ forallb succeeded rs = true
    /\ Mem_Dump 10 st =
         ([ {| No := 1; busy := true; prev_busy := true;
               t_begin := 65536; t_end := 69627; t_size := 4092 |};
            {| No := 2; busy := false; prev_busy := true;
               t_begin := 69628; t_end := 69631; t_size := 4 |} ],
          Totals 4092 4)
    /\ client env0 4096 100 [Alloc 4092] = Fault (OutOfBounds 69632).
Proof. run_client. Qed.

(** C7 (traversal step).  After two allocations of 12 bytes and the release
    of the first, the block list is free 16, busy 16, free 4064, and
    [Mem_Dump] steps from 65552 to 65568.  The scanning loop of [Mem_Alloc],
    at the busy block 65552 whose prev_allocated bit is clear (header 17),
    steps by 17 - 3 = 14 bytes to 65566, and the next [Mem_Alloc] reads
    there. *)
Theorem alloc_scan_leaves_the_chain :
  exists rs st,
    client env0 4096 100 [Alloc 12; Alloc 12; Free 0] = Ok (rs, st)
    /\ forallb succeeded rs = true
    /\ Mem_Dump 10 st =
         ([ {| No := 1; busy := false; prev_busy := true;
               t_begin := 65536; t_end := 65551; t_size := 16 |};
            {| No := 2; busy := true; prev_busy := false;
               t_begin := 65552; t_end := 65567; t_size := 16 |};
            {| No := 3; busy := false; prev_busy := true;
               t_begin := 65568; t_end := 69631; t_size := 4064 |} ],
          Totals 16 4080)
    /\ peek st 65552 = 17
    /\ scan_step 8 65536 65552 st = Ok ((65536, 65566), st)
    /\ Mem_Alloc 100 4 st = Fault (Misaligned 65566).
Proof. run_client. Qed.

(** C3 (best fit).  With free blocks of 64, 40 and 24 bytes separated by
    busy blocks, in a block list that conserves the arena, has no two
    neighbouring free blocks and whose prev_allocated bits are right, a
    request for 28 bytes (32 with its header) never examines the 40-byte
    block at 65616: the scan steps from the busy block 65600 to 65614. *)
Theorem best_fit_scan_derails :
  exists rs st,
    client env0 4096 100
      [Alloc 60; Alloc 12; Alloc 36; Alloc 12; Alloc 20; Alloc 12;
       Free 0; Free 2; Free 4] = Ok (rs, st)
    /\ forallb succeeded rs = true
    /\ Mem_Dump 10 st =
         ([ {| No := 1; busy := false; prev_busy := true;
               t_begin := 65536; t_end := 65599; t_size := 64 |};
            {| No := 2; busy := true; prev_busy := false;
               t_begin := 65600; t_end := 65615; t_size := 16 |};
            {| No := 3; busy := false; prev_busy := true;
               t_begin := 65616; t_end := 65655; t_size := 40 |};
            {| No := 4; busy := true; prev_busy := false;
               t_begin := 65656; t_end := 65671; t_size := 16 |};
            {| No := 5; busy := false; prev_busy := true;
               t_begin := 65672; t_end := 65695; t_size := 24 |};
            {| No := 6; busy := true; prev_busy := false;
               t_begin := 65696; t_end := 65711; t_size := 16 |};
            {| No := 7; busy := false; prev_busy := true;
               t_begin := 65712; t_end := 69631; t_size := 3920 |} ],
          Totals 48 4048)
    /\ scan_step 32 NULL 65536 st = Ok ((65536, 65600), st)
    /\ scan_step 32 65536 65600 st = Ok ((65536, 65614), st)
    /\ Mem_Alloc 100 28 st = Fault (Misaligned 65614).
Proof. run_client. Qed.

(** C9 (footers).  After two allocations of 28 bytes and the release of the
    first, the first block is free and spans [65536, 65567]; [Mem_Free]
    wrote its footer, 34, sixteen bytes before the end of the block (65552),
    and the block's last word (65564) still holds 0. *)
Theorem free_writes_footer_off_the_last_word :
  exists rs st,
    client env0 4096 100 [Alloc 28; Alloc 28; Free 0] = Ok (rs, st)
    /\ forallb succeeded rs = true
    /\ Mem_Dump 10 st =
         ([ {| No := 1; busy := false; prev_busy := true;
               t_begin := 65536; t_end := 65567; t_size := 32 |};
            {| No := 2; busy := true; prev_busy := false;
               t_begin := 65568; t_end := 65599; t_size := 32 |};
            {| No := 3; busy := false; prev_busy := true;
               t_begin := 65600; t_end := 69631; t_size := 4032 |} ],
          Totals 32 4064)
    /\ peek st 65536 = 34
    /\ peek st (65568 - 4) = 0
    /\ peek st (65568 - 16) = 34
    /\ footers_match st (fst (Mem_Dump 10 st)) = false.
Proof. run_client. Qed.

(** C8, counterexample.  Two blocks of 32 bytes are allocated and the first
    is freed; freeing it a second time returns 0 as well, and rewrites its
    header from 34 to 31. *)
Lemma double_free_accepted :
  exists rs st st',
    client env0 4096 100 [Alloc 28; Alloc 28; Free 0] = Ok (rs, st)
    /\ rs = [Status 0; Ptr 65552; Ptr 65584; Status 0]
    /\ Mem_Free 65552 st = Ok (0, st')
    /\ peek st 65536 = 34
    /\ peek st' 65536 = 31
    /\ st' <> st.
Proof.
  eexists _, _, _. split; [vm_compute; reflexivity |].
  split; [reflexivity |]. split; [vm_compute; reflexivity |].
  split; [vm_compute; reflexivity |]. split; [vm_compute; reflexivity |].
  intros H. apply (f_equal (fun s => peek s 65536)) in H.
  vm_compute in H. discriminate H.
Qed.

(** ** The theorems at concrete inputs *)

(** Closed facts, by evaluation. *)
Ltac evaluate :=
  vm_compute;
  repeat split;
  first [ reflexivity | discriminate | (intros Hx; discriminate Hx) ].


(** The range check on the arena of [Mem_Init env0 4096]: the address
    69632, one past its end, is not refused. *)
Lemma one_past_the_end_passes_witness :
  (out_of_range arena0 69632 = false
   /\ refused arena0 69632 = false
   /\ forall r st', Mem_Free 69632 arena0 = Ok (r, st') -> r = 0)
  /\ exists st', Mem_Free 69632 arena0 = Ok (0, st') /\ peek st' 69616 = -3.
Proof.
  split; [|eexists; split; vm_compute; reflexivity].
  assert (H1 : 0 <= total_mem_size arena0) by evaluate.
  assert (H2 : Int.wrap (first_block arena0) + total_mem_size arena0
               <= Int.max_signed) by evaluate.
  assert (H3 : first_block arena0 + total_mem_size arena0 <> NULL)
    by evaluate.
  assert (H4 : (first_block arena0 + total_mem_size arena0) mod 4 = 0)
    by evaluate.
  destruct (one_past_the_end_passes arena0 H1 H2) as (_ & _ & Hpass & Hfree).
  exact (conj Hpass (Hfree H3 H4)).
Defined.

(** The second release of the first of two 32-byte blocks. *)
Lemma second_free_not_refused_witness :
  Mem_Free 65552 (state_after [Alloc 28; Alloc 28])
  = Ok (0, state_after [Alloc 28; Alloc 28; Free 0])
  /\ refused (state_after [Alloc 28; Alloc 28; Free 0]) 65552 = false
  /\ forall r st2,
       Mem_Free 65552 (state_after [Alloc 28; Alloc 28; Free 0])
       = Ok (r, st2) -> r = 0.
Proof.
  assert (H : Mem_Free 65552 (state_after [Alloc 28; Alloc 28])
              = Ok (0, state_after [Alloc 28; Alloc 28; Free 0]))
    by evaluate.
  exact (conj H (second_free_not_refused 65552 _ _ H)).
Defined.

(** ** An arena that ends at the largest [int] *)


(** C10, counterexample.  On the same arena the range check of [Mem_Free]
    refuses the address one past the end of the arena, and with it the
    first address of the arena and the addresses inside it: [Mem_Free] of
    the one-past-the-end address returns -1. *)
Lemma range_check_fails_at_the_largest_int :
  Mem_Init env_high 4096 initial_state = Ok (0, arena_high)
  /\ first_block arena_high = 2147479552
  /\ total_mem_size arena_high = 4096
  /\ Int.wrap (first_block arena_high) + total_mem_size arena_high
     > Int.max_signed
  /\ out_of_range arena_high
       (first_block arena_high + total_mem_size arena_high) = true
  /\ out_of_range arena_high (first_block arena_high) = true
  /\ out_of_range arena_high (first_block arena_high + 16) = true
  /\ (first_block arena_high + total_mem_size arena_high) mod 4 = 0
  /\ first_block arena_high + total_mem_size arena_high <> NULL
  /\ Mem_Free (first_block arena_high + total_mem_size arena_high) arena_high
     = Ok (-1, arena_high).
Proof. evaluate. Qed.

(** * Properties of block lists *)

(** ** Spans and chains *)

Lemma span_app l1 l2 : span (l1 ++ l2) = span l1 + span l2.
Proof. induction l1 as [|[b n] l1 IH]; cbn in *; lia. Qed.

Lemma span_busy_free blocks : busy_bytes blocks + free_bytes blocks = span blocks.
Proof.
  unfold busy_bytes, free_bytes.
  induction blocks as [|[[] n] l IH]; cbn in *; lia.
Qed.

Lemma chain_span st cur prev blocks stop :
  chain st cur prev blocks stop ->
  stop = cur + span blocks
  /\ 4 * Z.of_nat (length blocks) <= span blocks
  /\ 0 <= busy_bytes blocks /\ 0 <= free_bytes blocks.
Proof.
  revert cur prev. unfold busy_bytes, free_bytes.
  induction blocks as [|[b n] l IH]; intros cur prev H.
  - cbn in *. lia.
  - destruct H as (_ & Hn & _ & H). apply IH in H.
    destruct b; cbn [length span fst List.filter negb] in *; lia.
Qed.

Lemma chain_frame st st' cur prev blocks stop :
  (forall a, cur <= a < stop -> peek st' a = peek st a) ->
  chain st cur prev blocks stop -> chain st' cur prev blocks stop.
Proof.
  revert cur prev.
  induction blocks as [|[b n] l IH]; intros cur prev Hf H; [exact H|].
  pose proof (chain_span _ _ _ _ _ H) as (Hs & _).
  destruct H as (Hh & Hn & Hn4 & H).
  pose proof (chain_span _ _ _ _ _ H) as (Hs' & Hl & _).
  cbn [chain]. rewrite Hf by lia.
  repeat split; try assumption.
  apply IH; [|assumption]. intros a Ha. apply Hf. lia.
Qed.

Lemma chain_app st cur prev l1 l2 stop :
  chain st cur prev (l1 ++ l2) stop
  <-> chain st cur prev l1 (cur + span l1)
      /\ chain st (cur + span l1) (last_busy prev l1) l2 stop.
Proof.
  revert cur prev.
  induction l1 as [|[b n] l1 IH]; intros cur prev; cbn [app chain span last_busy].
  - rewrite Z.add_0_r. intuition.
  - rewrite IH. replace (cur + n + span l1) with (cur + (n + span l1)) by lia.
    intuition.
Qed.

(** ** Headers *)

Lemma header_busy_bit prev b n :
  n mod 4 = 0 -> negb (Z.land (header prev b n) 1 =? 0) = b.
Proof.
  intros Hn. rewrite land_1. unfold header.
  destruct b, prev; cbn [negb];
    match goal with
    | |- negb (?x =? 0) = _ => destruct (Z.eqb_spec x 0)
    end; try reflexivity; exfalso;
    Z.to_euclidean_division_equations; lia.
Qed.

Lemma header_prev_bit prev n :
  n mod 4 = 0 -> negb (Z.land (header prev false n) 2 =? 0) = prev.
Proof.
  intros Hn. rewrite land_2_test. unfold header.
  destruct prev; cbn [negb];
    match goal with
    | |- negb (?x =? 0) = _ => destruct (Z.eqb_spec x 0)
    end; try reflexivity; exfalso;
    Z.to_euclidean_division_equations; lia.
Qed.

(** ** [Mem_Dump] of a block list *)

Lemma dump_loop_block st f cur c bs fs prev b n :
  cur < first_block st + total_mem_size st ->
  in_region st cur = true -> aligned cur = true ->
  peek st cur = header prev b n ->
  0 <= n -> n mod 4 = 0 -> n + 3 <= Int.max_signed ->
  dump_loop (S f) st cur c bs fs
  = let bs' := if b then Int.add bs n else bs in
    let fs' := if b then fs else Int.add fs n in
    let rest := dump_loop f st (cur + n) (Int.add c 1) bs' fs' in
    ({| No := c; busy := b; prev_busy := prev;
        t_begin := cur; t_end := cur + n - 1; t_size := n |} :: fst rest,
     snd rest).
Proof.
  intros Hlt Hin Hal Hh Hn Hn4 Hmax. cbn [dump_loop].
  apply Z.ltb_lt in Hlt. rewrite Hlt, load_run, Hh by assumption.
  cbv zeta. rewrite header_busy_bit by assumption.
  assert (H1 : (if b then Int.sub (header prev b n) 1 else header prev b n)
               = header prev false n).
  { unfold header. destruct b, prev; int_small; lia. }
  rewrite H1, header_prev_bit by assumption.
  assert (H2 : (if prev then Int.sub (header prev false n) 2
                else header prev false n) = n).
  { unfold header. destruct prev; int_small; lia. }
  rewrite H2. destruct b; reflexivity.
Qed.

Lemma chain_region st cur prev b n rest stop :
  first_block st <= cur -> cur mod 4 = 0 ->
  stop <= first_block st + total_mem_size st ->
  chain st cur prev ((b, n) :: rest) stop ->
  cur < first_block st + total_mem_size st
  /\ in_region st cur = true /\ aligned cur = true
  /\ first_block st <= cur + n /\ (cur + n) mod 4 = 0
  /\ cur + n <= first_block st + total_mem_size st.
Proof.
  intros Hlo Hal Hstop H.
  destruct H as (_ & Hn & Hn4 & H).
  apply chain_span in H as (Hs & Hl & _).
  split; [lia|]. split; [apply in_region_true; lia|].
  split; [apply aligned_true; assumption|].
  split; [lia|].
  split; [Z.to_euclidean_division_equations; lia | lia].
Qed.

Lemma dump_loop_chain st blocks :
  forall f cur c bs fs prev,
    first_block st <= cur -> cur mod 4 = 0 ->
    chain st cur prev blocks (first_block st + total_mem_size st) ->
    span blocks + 3 <= Int.max_signed ->
    0 <= c -> c + Z.of_nat (length blocks) <= Int.max_signed ->
    0 <= bs -> bs + span blocks <= Int.max_signed ->
    0 <= fs -> fs + span blocks <= Int.max_signed ->
    dump_loop (length blocks + S f) st cur c bs fs
    = (rows_of cur c prev blocks,
       Totals (bs + busy_bytes blocks) (fs + free_bytes blocks)).
Proof.
  unfold busy_bytes, free_bytes.
  induction blocks as [|[b n] l IH];
    intros f cur c bs fs prev Hlo Hal H Hmax Hc Hcl Hbs Hbl Hfs Hfl.
  - cbn in H. subst cur. cbn [length Nat.add dump_loop].
    rewrite Z.ltb_irrefl. cbn. do 2 f_equal; lia.
  - destruct (chain_region _ _ _ _ _ _ _ Hlo Hal (Z.le_refl _) H)
      as (Hlt & Hin & Hal' & Hlo' & Hal'' & Hend).
    pose proof H as (Hh & Hn & Hn4 & H').
    pose proof (chain_span _ _ _ _ _ H') as (_ & Hl & Hb0 & Hf0).
    unfold busy_bytes, free_bytes in Hb0, Hf0.
    cbn [length span] in *.
    change (S (length l) + S f)%nat with (S (length l + S f)).
    rewrite (dump_loop_block st _ cur c bs fs prev b n) by (assumption || lia).
    cbv zeta.
    replace (Int.add c 1) with (c + 1) by (int_small; lia).
    assert (Hspan : busy_bytes l + free_bytes l = span l)
      by apply span_busy_free.
    unfold busy_bytes, free_bytes in Hspan.
    destruct b; cbn [List.filter fst negb span rows_of].
    + replace (Int.add bs n) with (bs + n) by (int_small; lia).
      rewrite (IH f (cur + n) (c + 1) (bs + n) fs true)
        by (assumption || lia). cbn [fst snd].
      do 2 f_equal; lia.
    + replace (Int.add fs n) with (fs + n) by (int_small; lia).
      rewrite (IH f (cur + n) (c + 1) bs (fs + n) false)
        by (assumption || lia). cbn [fst snd].
      do 2 f_equal; lia.
Qed.

Lemma total_of_rows cur c prev blocks :
  total_of (rows_of cur c prev blocks) = span blocks.
Proof.
  revert cur c prev. unfold total_of.
  induction blocks as [|[b n] l IH]; intros cur c prev; cbn in *;
    [reflexivity | rewrite IH; reflexivity].
Qed.

(** The report lists the blocks of the arena and nothing else, and its
    totals add up to the size of the arena. *)
Lemma Mem_Dump_layout st blocks f :
  first_block st mod 4 = 0 ->
  total_mem_size st + 3 <= Int.max_signed ->
  layout st blocks ->
  Mem_Dump (length blocks + S f) st
  = (rows_of (first_block st) 1 true blocks,
     Totals (busy_bytes blocks) (free_bytes blocks))
  /\ busy_bytes blocks + free_bytes blocks = total_mem_size st
  /\ total_of (rows_of (first_block st) 1 true blocks) = total_mem_size st.
Proof.
  intros Hal Hmax H. unfold layout in H.
  pose proof (chain_span _ _ _ _ _ H) as (Hs & Hl & _).
  unfold Mem_Dump.
  rewrite (dump_loop_chain st blocks f _ 1 0 0 true)
    by (try assumption; unfold Int.max_signed in *; lia).
  rewrite total_of_rows, span_busy_free, !Z.add_0_l.
  repeat split; lia.
Qed.

(** ** The scan of [Mem_Alloc] over a block list *)

Lemma scan_step_free st size best cur :
  in_region st cur = true -> aligned cur = true ->
  Z.land (peek st cur) 1 = 0 ->
  best = NULL \/ (in_region st best = true /\ aligned best = true) ->
  scan_step size best cur st
  = Ok ((if (size <=? peek st cur)
            && ((best =? NULL) || (peek st cur <? peek st best))
         then cur else best,
         cur + Int.sub (peek st cur) 2), st).
Proof.
  intros Hin Hal Hb Hbest. apply Z.eqb_eq in Hb. unfold scan_step. mred.
  rewrite load_run by assumption. rewrite Hb. mred.
  rewrite load_run by assumption.
  destruct (size <=? peek st cur); cbn [andb]; [|reflexivity].
  destruct Hbest as [->|[Hbin Hbal]]; [reflexivity|].
  destruct (best =? NULL); cbn [orb]; [reflexivity|].
  mred. rewrite !load_run by assumption. mred.
  destruct (peek st cur <? peek st best); reflexivity.
Qed.

Lemma busy_blocks_length sizes : length (busy_blocks sizes) = length sizes.
Proof. apply length_map. Qed.

(** Busy blocks whose predecessors are busy are stepped over one by one. *)
Lemma scan_busy_prefix st size best stop sizes :
  forall fuel cur,
    first_block st <= cur -> cur mod 4 = 0 ->
    stop <= first_block st + total_mem_size st ->
    stop - cur + 3 <= Int.max_signed ->
    chain st cur true (busy_blocks sizes) stop ->
    scan fuel size best cur st
    = if (length sizes <=? fuel)%nat
      then scan (fuel - length sizes) size best stop st
      else Fault OutOfFuel.
Proof.
  induction sizes as [|n l IH]; intros fuel cur Hlo Hal Hstop Hmax H.
  - cbn in H. subst. cbn [length]. rewrite Nat.sub_0_r. reflexivity.
  - change (busy_blocks (n :: l)) with ((true, n) :: busy_blocks l) in H.
    destruct (chain_region _ _ _ _ _ _ _ Hlo Hal Hstop H)
      as (Hlt & Hin & Hal' & Hlo' & Hal'' & Hend).
    destruct H as (Hh & Hn & Hn4 & H).
    pose proof (chain_span _ _ _ _ _ H) as (Hs & Hl & _).
    destruct fuel as [|fuel]; [reflexivity|].
    rewrite scan_S. apply Z.ltb_lt in Hlt. rewrite Hlt.
    rewrite scan_step_busy; try assumption.
    2:{ rewrite Hh, land_1. unfold header.
        Z.to_euclidean_division_equations; lia. }
    rewrite Hh. cbn [fst snd].
    replace (Int.sub (header true true n) 3) with n
      by (unfold header; int_small; lia).
    rewrite IH by (assumption || lia). reflexivity.
Qed.

Lemma last_busy_busy_blocks sizes : last_busy true (busy_blocks sizes) = true.
Proof.
  assert (H : forall p, p = true -> last_busy p (busy_blocks sizes) = true).
  { induction sizes as [|n l IH]; intros p Hp; cbn; [exact Hp | apply IH; reflexivity]. }
  apply H. reflexivity.
Qed.

Lemma chain_span_mod4 st cur prev blocks stop :
  chain st cur prev blocks stop -> span blocks mod 4 = 0.
Proof.
  revert cur prev.
  induction blocks as [|[b n] l IH]; intros cur prev H; [reflexivity|].
  destruct H as (_ & _ & Hn4 & H). apply IH in H. cbn [span].
  Z.to_euclidean_division_equations; lia.
Qed.

Lemma alloc_only_parts st sizes rest :
  alloc_only st sizes rest ->
  chain st (first_block st) true (busy_blocks sizes) (free_start st sizes)
  /\ peek st (free_start st sizes) = rest + 2
  /\ 4 <= rest /\ rest mod 4 = 0
  /\ free_start st sizes + rest = first_block st + total_mem_size st
  /\ first_block st <= free_start st sizes
  /\ (first_block st mod 4 = 0 -> free_start st sizes mod 4 = 0).
Proof.
  unfold alloc_only, layout, free_start. intros H.
  apply chain_app in H as (H1 & H2).
  rewrite last_busy_busy_blocks in H2.
  destruct H2 as (Hh & Hr & Hr4 & Hend). cbn in Hend.
  pose proof (chain_span _ _ _ _ _ H1) as (_ & Hl & _).
  pose proof (chain_span_mod4 _ _ _ _ _ H1) as Hm.
  unfold header in Hh.
  repeat split; try assumption; try lia.
  intros Hal. Z.to_euclidean_division_equations; lia.
Qed.

Lemma scan_alloc_only st sizes rest size fuel :
  first_block st mod 4 = 0 ->
  total_mem_size st + 3 <= Int.max_signed ->
  alloc_only st sizes rest ->
  scan fuel size NULL (first_block st) st
  = if (length sizes + 2 <=? fuel)%nat
    then Ok (if size <=? rest + 2 then free_start st sizes else NULL, st)
    else Fault OutOfFuel.
Proof.
  intros Hal Hmax H.
  destruct (alloc_only_parts _ _ _ H)
    as (Hpre & Hh & Hr & Hr4 & Hend & Hlo & Hb4).
  specialize (Hb4 Hal). set (b := free_start st sizes) in *.
  rewrite (scan_busy_prefix st size NULL b sizes)
    by (try assumption; lia).
  destruct (Nat.leb_spec (length sizes) fuel) as [Hle|Hgt].
  2:{ destruct (Nat.leb_spec (length sizes + 2) fuel); [lia | reflexivity]. }
  destruct (fuel - length sizes)%nat as [|[|k]] eqn:Hk.
  - destruct (Nat.leb_spec (length sizes + 2) fuel); [lia | reflexivity].
  - destruct (Nat.leb_spec (length sizes + 2) fuel); [lia|].
    rewrite scan_S.
    replace (b <? first_block st + total_mem_size st) with true
      by (symmetry; apply Z.ltb_lt; lia).
    rewrite scan_step_free;
      [reflexivity | apply in_region_true; lia | apply aligned_true; assumption
      | rewrite Hh, land_1; Z.to_euclidean_division_equations; lia
      | left; reflexivity].
  - destruct (Nat.leb_spec (length sizes + 2) fuel); [|lia].
    rewrite scan_S.
    replace (b <? first_block st + total_mem_size st) with true
      by (symmetry; apply Z.ltb_lt; lia).
    rewrite scan_step_free;
      [ | apply in_region_true; lia | apply aligned_true; assumption
      | rewrite Hh, land_1; Z.to_euclidean_division_equations; lia
      | left; reflexivity].
    cbn [fst snd]. rewrite Hh.
    replace (Int.sub (rest + 2) 2) with rest by (int_small; lia).
    change (NULL =? NULL) with true. rewrite orb_true_l, andb_true_r.
    rewrite scan_S.
    replace (b + rest <? first_block st + total_mem_size st) with false
      by (symmetry; apply Z.ltb_ge; lia).
    reflexivity.
Qed.

(** ** [Mem_Alloc] after allocations only *)

(** A block size that overflowed is at the bottom of the [int] range. *)
Lemma need_overflow size :
  0 < size <= Int.max_signed ->
  need size <= Int.min_signed + 4 \/ 8 <= need size.
Proof.
  intros Hs.
  unfold need, round_up4, Int.add, Int.wrap, Int.max_signed, Int.min_signed in *.
  change (2 ^ 31) with 2147483648 in *.
  change (2 ^ 32) with 4294967296 in *.
  repeat match goal with
         | |- context [?a =? ?b] => destruct (Z.eqb_spec a b)
         end;
    Z.to_euclidean_division_equations; lia.
Qed.

Lemma Mem_Alloc_alloc_only st sizes rest size fuel :
  arena_ok st ->
  alloc_only st sizes rest ->
  0 < size <= Int.max_signed ->
  (length sizes + 2 <= fuel)%nat ->
  Mem_Alloc fuel size st
  = if rest + 2 <? need size then Ok (NULL, st)
    else if rest <? 20 then Fault (OutOfBounds (free_start st sizes + 16))
    else if (8 <=? need size) && (need size <=? rest - 4)
    then Ok (free_start st sizes + 16,
             carve st (free_start st sizes) (need size) rest)
    else Fault (OutOfBounds
                  (ptr_add (free_start st sizes) (Z.quot (need size) 4))).
Proof.
  intros Hok H Hs Hfuel.
  destruct (need_cases size Hs) as (Hn4 & Hnr & _).
  pose proof (need_overflow size Hs) as Hn8.
  pose proof Hok as (Hpos & Hal & H20 & H4 & Hmax & Hcast).
  destruct (alloc_only_parts _ _ _ H)
    as (Hpre & Hh & Hr & Hr4 & Hend & Hlo & Hb4).
  specialize (Hb4 Hal).
  unfold Mem_Alloc.
  replace (size <=? 0) with false by (symmetry; apply Z.leb_gt; lia).
  cbv zeta. change (Int.add (round_up4 size) 4) with (need size).
  set (n := need size) in *.
  mred. rewrite (scan_alloc_only st sizes rest) by assumption.
  replace (length sizes + 2 <=? fuel)%nat with true
    by (symmetry; apply Nat.leb_le; lia).
  set (b := free_start st sizes) in *.
  destruct (Z.ltb_spec (rest + 2) n) as [Hbig|Hfit].
  { replace (n <=? rest + 2) with false by (symmetry; apply Z.leb_gt; lia).
    reflexivity. }
  replace (n <=? rest + 2) with true by (symmetry; apply Z.leb_le; lia).
  replace (b =? NULL) with false
    by (symmetry; apply Z.eqb_neq; unfold NULL; lia).
  mred. rewrite load_run by region. rewrite Hh.
  unfold ptr_add. ring_simplify (b + 4 * 4).
  destruct (Z.ltb_spec rest 20) as [Hsmall|Hroom].
  { rewrite store_out; [reflexivity|]. apply in_region_false. lia. }
  rewrite store_run by region. mred.
  rewrite load_run by region. mred.
  replace (b + 16 + 4 * - (4)) with b by lia.
  rewrite store_run by region. mred.
  destruct (Z.leb_spec 8 n) as [H8|H8]; cbn [andb];
    [destruct (Z.leb_spec n (rest - 4)) as [Hle|Hle] |].
  - replace (Int.sub (rest + 2) 2) with rest by (int_small; lia).
    replace (Int.add (Int.add n 1) 2) with (n + 3) by (int_small; lia).
    rewrite peek_poke_eq.
    replace (b + 4 * Z.quot n 4) with (b + n)
      by (Z.to_euclidean_division_equations; lia).
    replace (Int.add (Int.sub rest n) 2) with (rest - n + 2)
      by (int_small; lia).
    rewrite store_run by region. mred.
    rewrite load_run by region. rewrite peek_poke_eq.
    replace (b + n + 4 * Z.quot (Int.sub (rest - n + 2) 2) 4
             + 4 * - Z.quot 2 4 + 4 * -1)
      with (b + rest - 4)
      by (replace (Int.sub (rest - n + 2) 2) with (rest - n)
            by (int_small; lia);
          change (Z.quot 2 4) with 0;
          Z.to_euclidean_division_equations; lia).
    rewrite store_run by region. mred.
    reflexivity.
  - rewrite store_out; [reflexivity|].
    apply in_region_false. cbn [first_block total_mem_size poke].
    Z.to_euclidean_division_equations; lia.
  - rewrite store_out; [reflexivity|].
    apply in_region_false. cbn [first_block total_mem_size poke].
    unfold Int.min_signed, Int.max_signed in *.
    Z.to_euclidean_division_equations; lia.
Qed.

Lemma busy_blocks_app l1 l2 :
  busy_blocks (l1 ++ l2) = busy_blocks l1 ++ busy_blocks l2.
Proof. apply map_app. Qed.

Lemma carve_alloc_only st sizes rest n :
  alloc_only st sizes rest ->
  20 <= rest -> 8 <= n <= rest - 4 -> n mod 4 = 0 ->
  alloc_only (carve st (free_start st sizes) n rest) (sizes ++ [n]) (rest - n).
Proof.
  intros H Hroom Hn Hn4.
  destruct (alloc_only_parts _ _ _ H)
    as (Hpre & Hh & Hr & Hr4 & Hend & Hlo & _).
  unfold alloc_only, layout.
  change (first_block (carve st (free_start st sizes) n rest))
    with (first_block st).
  change (total_mem_size (carve st (free_start st sizes) n rest))
    with (total_mem_size st).
  rewrite busy_blocks_app, <- app_assoc.
  apply chain_app. fold (free_start st sizes).
  rewrite last_busy_busy_blocks.
  set (b := free_start st sizes) in *.
  split.
  - apply (chain_frame st); [|exact Hpre].
    intros a Ha. unfold carve. rewrite !peek_poke_ne by lia. reflexivity.
  - cbn [busy_blocks map app chain].
    unfold header.
    split; [|split; [lia|split; [assumption|]]].
    { unfold carve. rewrite !peek_poke_ne by lia. rewrite peek_poke_eq. lia. }
    split; [|split; [lia|split; [|lia]]].
    + unfold carve.
      destruct (Z.eq_dec (b + rest - 4) (b + n)) as [->|Hne].
      * rewrite peek_poke_eq. lia.
      * rewrite peek_poke_ne by assumption. rewrite peek_poke_eq. lia.
    + Z.to_euclidean_division_equations; lia.
Qed.

Lemma Mem_Alloc_short_fuel st sizes rest size fuel :
  first_block st mod 4 = 0 ->
  total_mem_size st + 3 <= Int.max_signed ->
  alloc_only st sizes rest ->
  0 < size ->
  (fuel < length sizes + 2)%nat ->
  Mem_Alloc fuel size st = Fault OutOfFuel.
Proof.
  intros Hal Hmax H Hs Hfuel. unfold Mem_Alloc.
  replace (size <=? 0) with false by (symmetry; apply Z.leb_gt; lia).
  cbv zeta. mred. rewrite (scan_alloc_only st sizes rest) by assumption.
  replace (length sizes + 2 <=? fuel)%nat with false
    by (symmetry; apply Nat.leb_gt; lia).
  reflexivity.
Qed.

Lemma Mem_Alloc_keeps_alloc_only st sizes rest size fuel p st' :
  arena_ok st ->
  alloc_only st sizes rest ->
  Int.in_range size ->
  Mem_Alloc fuel size st = Ok (p, st') ->
  p <> NULL ->
  p = free_start st sizes + 16
  /\ st' = carve st (free_start st sizes) (need size) rest
  /\ 20 <= rest /\ 8 <= need size <= rest - 4 /\ need size mod 4 = 0
  /\ (length sizes + 2 <= fuel)%nat.
Proof.
  intros Hok H Hsize Hrun Hp.
  pose proof Hok as (Hpos & Hal & H20 & H4 & Hmax & Hcast).
  assert (Hs0 : 0 < size).
  { destruct (Z.leb_spec size 0) as [Hle|]; [|assumption].
    unfold Mem_Alloc in Hrun.
    replace (size <=? 0) with true in Hrun by (symmetry; apply Z.leb_le; lia).
    injection Hrun as <- _. congruence. }
  assert (Hs : 0 < size <= Int.max_signed) by (destruct Hsize; lia).
  destruct (need_cases size Hs) as (Hn4 & _ & _).
  destruct (Nat.le_gt_cases (length sizes + 2) fuel) as [Hfuel|Hfuel].
  2:{ rewrite (Mem_Alloc_short_fuel st sizes rest) in Hrun
        by (assumption || lia). discriminate. }
  rewrite (Mem_Alloc_alloc_only st sizes rest) in Hrun by assumption.
  destruct (rest + 2 <? need size);
    [injection Hrun as <- _; congruence|].
  destruct (Z.ltb_spec rest 20); [discriminate|].
  destruct (Z.leb_spec 8 (need size)); cbn [andb] in Hrun; [|discriminate].
  destruct (Z.leb_spec (need size) (rest - 4)); [|discriminate].
  injection Hrun as <- <-. repeat split; (assumption || lia).
Qed.

(** ** Clients that only allocate *)

Lemma single_block_alloc_only st :
  arena_ok st -> single_free_block st ->
  alloc_only st [] (total_mem_size st).
Proof.
  intros (Hpos & Hal & H20 & H4 & Hmax & Hcast) Hs. red in Hs.
  unfold alloc_only, layout. cbn. unfold header.
  repeat split; (assumption || lia).
Qed.

Lemma run_allocs reqs :
  forall fuel ptrs st sizes rest rs st',
    arena_ok st ->
    alloc_only st sizes rest ->
    Forall Int.in_range reqs ->
    run fuel (map Alloc reqs) ptrs st = Ok (rs, st') ->
    forallb succeeded rs = true ->
    alloc_only st' (sizes ++ map need reqs)
               (rest - span (busy_blocks (map need reqs)))
    /\ first_block st' = first_block st
    /\ total_mem_size st' = total_mem_size st.
Proof.
  induction reqs as [|x reqs IH];
    intros fuel ptrs st sizes rest rs st' Hok H Hreqs Hrun Hall.
  - cbn in Hrun. injection Hrun as <- <-. cbn.
    rewrite app_nil_r, Z.sub_0_r. auto.
  - cbn [map run] in Hrun.
    apply bind_inv in Hrun as (p & st1 & Ha & Hrun).
    apply bind_inv in Hrun as (rs' & st2 & Hrest & Hrun).
    injection Hrun as <- <-.
    cbn [forallb succeeded] in Hall.
    apply andb_true_iff in Hall as [Hp Hall].
    apply negb_true_iff, Z.eqb_neq in Hp.
    inversion Hreqs as [|? ? Hx Hreqs']; subst.
    destruct (Mem_Alloc_keeps_alloc_only _ _ _ _ _ _ _ Hok H Hx Ha Hp)
      as (_ & -> & Hroom & Hn & Hn4 & _).
    pose proof (carve_alloc_only _ _ _ _ H Hroom Hn Hn4) as H1.
    destruct (IH fuel (ptrs ++ [p]) (carve st (free_start st sizes) (need x) rest)
                _ _ _ _ Hok H1 Hreqs' Hrest Hall) as (H2 & Hfb & HT).
    cbn [map busy_blocks span].
    rewrite <- app_assoc in H2. cbn [app] in H2.
    replace (rest - (need x + span (map (pair true) (map need reqs))))
      with (rest - need x - span (busy_blocks (map need reqs)))
      by (unfold busy_blocks; lia).
    auto.
Qed.

Lemma no_adjacent_free_alloc_only sizes rest :
  forall cur c prev,
    adjacent_free (rows_of cur c prev (busy_blocks sizes ++ [(false, rest)]))
    = false.
Proof.
  induction sizes as [|n l IH]; intros cur c prev; [reflexivity|].
  cbn [busy_blocks map app rows_of adjacent_free].
  specialize (IH (cur + n) (c + 1) true).
  destruct l; cbn [busy_blocks map app rows_of] in *; exact IH.
Qed.

Lemma bytes_alloc_only_busy sizes rest :
  busy_bytes (busy_blocks sizes ++ [(false, rest)]) = span (busy_blocks sizes).
Proof.
  unfold busy_bytes.
  induction sizes as [|n l IH]; [reflexivity|].
  change (busy_blocks (n :: l)) with ((true, n) :: busy_blocks l).
  cbn [app List.filter fst span]. rewrite IH. reflexivity.
Qed.

Lemma bytes_alloc_only_free sizes rest :
  free_bytes (busy_blocks sizes ++ [(false, rest)]) = rest.
Proof.
  unfold free_bytes.
  induction sizes as [|n l IH]; [cbn; lia|].
  change (busy_blocks (n :: l)) with ((true, n) :: busy_blocks l).
  cbn [app List.filter fst negb]. exact IH.
Qed.

Lemma Mem_Init_alloc_only e n c st :
  env_ok e n ->
  Mem_Init e n initial_state = Ok (c, st) ->
  c = 0 /\ arena_ok st /\ alloc_only st [] (total_mem_size st)
  /\ total_mem_size st = page_round (pagesize e) n.
Proof.
  intros (p & Hp & Hfd & Hp0 & Hp4 & HP20 & HP4 & Hn & Hmax & Hcast) Hrun.
  destruct (Mem_Init_arena e n p Hp Hfd Hp0 Hp4 HP20 HP4 Hn Hmax Hcast)
    as (st0 & Hinit & Hok & Hsingle & _ & HT).
  rewrite Hinit in Hrun. injection Hrun as <- <-.
  auto using single_block_alloc_only.
Qed.

(** X7.  A client that initialises the allocator and then only allocates, all
    calls succeeding, leaves an arena that is exactly the allocated blocks,
    in the order of the calls, followed by one free block: [Mem_Dump] lists
    them, the sizes add up to the size of the arena, and no two neighbouring
    blocks are free. *)
Theorem allocations_partition_the_arena e n fuel reqs rs st :
  env_ok e n ->
  Forall Int.in_range reqs ->
  client e n fuel (map Alloc reqs) = Ok (rs, st) ->
  forallb succeeded rs = true ->
  exists rest,
    alloc_only st (map need reqs) rest
    /\ total_mem_size st = page_round (pagesize e) n
    /\ span (busy_blocks (map need reqs)) + rest = total_mem_size st
    /\ forall f,
         Mem_Dump (length reqs + 2 + f) st
         = (rows_of (first_block st) 1 true
              (busy_blocks (map need reqs) ++ [(false, rest)]),
            Totals (span (busy_blocks (map need reqs))) rest)
         /\ total_of (fst (Mem_Dump (length reqs + 2 + f) st))
            = total_mem_size st
         /\ adjacent_free (fst (Mem_Dump (length reqs + 2 + f) st)) = false.
Proof.
  intros Henv Hreqs Hrun Hall. unfold client in Hrun.
  apply bind_inv in Hrun as (c & st0 & Hinit & Hrun).
  apply bind_inv in Hrun as (rs' & st1 & Hrun & Hret).
  injection Hret as <- <-.
  cbn [forallb] in Hall. apply andb_true_iff in Hall as [_ Hall].
  destruct (Mem_Init_alloc_only _ _ _ _ Henv Hinit) as (_ & Hok & H0 & HT).
  destruct (run_allocs _ _ _ _ _ _ _ _ Hok H0 Hreqs Hrun Hall)
    as (H1 & Hfb & HT1).
  cbn [app] in H1.
  exists (total_mem_size st0 - span (busy_blocks (map need reqs))).
  split; [exact H1|]. split; [congruence|]. split; [lia|].
  intros f.
  assert (Hok1 : arena_ok st1).
  { unfold arena_ok in *. rewrite Hfb, HT1. exact Hok. }
  pose proof Hok1 as (_ & Hal & _ & _ & Hmax & _).
  destruct (Mem_Dump_layout st1 _ f Hal Hmax H1) as (Hd & Hsum & Htot).
  rewrite length_app, busy_blocks_length, length_map in Hd. cbn [length] in Hd.
  replace (length reqs + 1 + S f)%nat with (length reqs + 2 + f)%nat in Hd
    by lia.
  rewrite Hd. cbn [fst].
  split; [|split; [exact Htot | apply no_adjacent_free_alloc_only]].
  rewrite bytes_alloc_only_busy, bytes_alloc_only_free. reflexivity.
Qed.

(** ** [Mem_Free] in a block list *)

(** The block at [c], of [n] bytes, within a block list. *)
Lemma layout_at st pre b n post :
  first_block st mod 4 = 0 ->
  layout st (pre ++ (b, n) :: post) ->
  let c := first_block st + span pre in
  chain st (first_block st) true pre c
  /\ peek st c = header (last_busy true pre) b n
  /\ 4 <= n /\ n mod 4 = 0
  /\ chain st (c + n) b post (first_block st + total_mem_size st)
  /\ first_block st <= c /\ c mod 4 = 0
  /\ c + n + span post = first_block st + total_mem_size st
  /\ 0 <= span post.
Proof.
  intros Hal H c. unfold layout in H.
  apply chain_app in H as (H1 & H2). fold c in H1, H2.
  pose proof (chain_span _ _ _ _ _ H1) as (_ & Hl & _).
  pose proof (chain_span_mod4 _ _ _ _ _ H1) as Hm.
  destruct H2 as (Hh & Hn & Hn4 & H2).
  pose proof (chain_span _ _ _ _ _ H2) as (Hs & Hl2 & _).
  repeat split; try assumption; try lia.
  unfold c. Z.to_euclidean_division_equations; lia.
Qed.

Lemma Mem_Free_merges_right st pre n m post :
  arena_ok st ->
  layout st (pre ++ (true, n) :: (false, m) :: post) ->
  last_busy true pre = true ->
  16 <= n + m ->
  let c := first_block st + span pre in
  Mem_Free (c + 16) st = Ok (0, merged_right st c n m)
  /\ layout (merged_right st c n m) (pre ++ (false, n + m) :: post).
Proof.
  intros Hok H Hprev Hroom c.
  pose proof Hok as (Hpos & Hal & H20 & H4 & Hmax & Hcast).
  destruct (layout_at _ _ _ _ _ Hal H)
    as (Hpre & Hh & Hn & Hn4 & Hnext & Hlo & Hc4 & Hend & Hp0).
  fold c in Hpre, Hh, Hnext, Hlo, Hc4, Hend.
  rewrite Hprev in Hh. unfold header in Hh.
  destruct Hnext as (Hh' & Hm & Hm4 & Hpost). unfold header in Hh'.
  cbn [span] in Hend.
  pose proof (chain_span _ _ _ _ _ Hpost) as (Hs & Hl & _).
  split.
  - unfold Mem_Free.
    replace (is_null (c + 16)) with false
      by (symmetry; apply Z.eqb_neq; unfold NULL; lia).
    assert (Hoor : out_of_range st (c + 16) = false).
    { replace (c + 16) with (first_block st + (span pre + 16))
        by (unfold c; lia).
      apply in_range_passes; [assumption | lia]. }
    mred. rewrite Hoor.
    rewrite aligned_passes by (Z.to_euclidean_division_equations; lia).
    unfold ptr_add. replace (c + 16 + 4 * -4) with c by lia.
    mred. rewrite load_run by region. rewrite Hh. mred.
    replace (Int.sub (n + 1 + 2) 1) with (n + 2) by (int_small; lia).
    rewrite store_run by region. mred.
    assert (Hq : c + 4 * Z.quot (Int.sub (n + 2) 2) 4 = c + n).
    { replace (Int.sub (n + 2) 2) with n by (int_small; lia).
      Z.to_euclidean_division_equations; lia. }
    assert (Hq' : c + 4 * Z.quot (n + 2) 4 = c + n)
      by (Z.to_euclidean_division_equations; lia).
    assert (Heven : (Z.land (m + 0 + 2) 1 =? 0) = true)
      by (apply land_1_even; Z.to_euclidean_division_equations; lia).
    unfold next_busy_prev_busy. mred.
    rewrite load_run by region. rewrite peek_poke_eq. mred.
    unfold ptr_add. rewrite Hq.
    rewrite load_run by region. rewrite peek_poke_ne by lia.
    rewrite Hh', Heven. mred.
    unfold next_busy_prev_free. mred.
    rewrite load_run by region. rewrite peek_poke_eq. mred.
    unfold ptr_add. rewrite Hq'.
    rewrite load_run by region. rewrite peek_poke_ne by lia.
    rewrite Hh', Heven. mred.
    unfold next_free_prev_busy. mred.
    rewrite load_run by region. rewrite peek_poke_eq. mred.
    unfold ptr_add. rewrite Hq.
    rewrite load_run by region. rewrite peek_poke_ne by lia. rewrite Hh'.
    replace (Z.rem (m + 0 + 2) 2 =? 0) with true
      by (symmetry; apply Z.eqb_eq; Z.to_euclidean_division_equations; lia).
    mred. rewrite load_run by region. rewrite peek_poke_eq. mred.
    replace (Z.rem (n + 2) 4 =? 0) with false
      by (symmetry; apply Z.eqb_neq; Z.to_euclidean_division_equations; lia).
    mred.
    unfold free_next_free. mred.
    rewrite load_run by region. rewrite peek_poke_eq. mred.
    rewrite load_run by region. rewrite peek_poke_eq. mred.
    unfold ptr_add. rewrite Hq.
    rewrite load_run by region. rewrite peek_poke_ne by lia.
    rewrite Hh'. mred.
    replace (Int.sub (Int.add (n + 2) (m + 0 + 2)) 2) with (n + m + 2)
      by (unfold Int.sub, Int.add; rewrite wrap_wrap_sub;
          rewrite wrap_small;
          unfold Int.in_range, Int.min_signed, Int.max_signed in *; lia).
    rewrite store_run by region. mred.
    rewrite load_run by region. rewrite peek_poke_eq. mred.
    rewrite load_run by region. rewrite peek_poke_eq. mred.
    replace (c + 4 * Z.quot (Int.sub (n + m + 2) 2) 4 + 4 * -4)
      with (c + n + m - 16)
      by (replace (Int.sub (n + m + 2) 2) with (n + m) by (int_small; lia);
          Z.to_euclidean_division_equations; lia).
    rewrite store_run by region. reflexivity.
  - unfold layout.
    change (first_block (merged_right st c n m)) with (first_block st).
    change (total_mem_size (merged_right st c n m)) with (total_mem_size st).
    apply chain_app. fold c. rewrite Hprev. split.
    + apply (chain_frame st); [|exact Hpre].
      intros a Ha. unfold merged_right. rewrite !peek_poke_ne by lia.
      reflexivity.
    + cbn [chain]. unfold header.
      split; [|split; [lia|split; [Z.to_euclidean_division_equations; lia|]]].
      * unfold merged_right.
        destruct (Z.eq_dec (c + n + m - 16) c) as [->|Hne];
          [rewrite peek_poke_eq; lia|].
        rewrite peek_poke_ne by assumption. rewrite peek_poke_eq. lia.
      * replace (c + (n + m)) with (c + n + m) by lia.
        apply (chain_frame st); [|exact Hpost].
        intros a Ha. unfold merged_right. rewrite !peek_poke_ne by lia.
        reflexivity.
Qed.

Lemma Mem_Free_between_busy st pre n m post :
  arena_ok st ->
  layout st (pre ++ (true, n) :: (true, m) :: post) ->
  last_busy true pre = true ->
  16 <= n ->
  let c := first_block st + span pre in
  Mem_Free (c + 16) st = Ok (0, freed_alone st c n m)
  /\ layout (freed_alone st c n m) (pre ++ (false, n) :: (true, m) :: post).
Proof.
  intros Hok H Hprev Hroom c.
  pose proof Hok as (Hpos & Hal & H20 & H4 & Hmax & Hcast).
  destruct (layout_at _ _ _ _ _ Hal H)
    as (Hpre & Hh & Hn & Hn4 & Hnext & Hlo & Hc4 & Hend & Hp0).
  fold c in Hpre, Hh, Hnext, Hlo, Hc4, Hend.
  rewrite Hprev in Hh. unfold header in Hh.
  destruct Hnext as (Hh' & Hm & Hm4 & Hpost). unfold header in Hh'.
  cbn [span] in Hend.
  pose proof (chain_span _ _ _ _ _ Hpost) as (Hs & Hl & _).
  split.
  - unfold Mem_Free.
    replace (is_null (c + 16)) with false
      by (symmetry; apply Z.eqb_neq; unfold NULL; lia).
    assert (Hoor : out_of_range st (c + 16) = false).
    { replace (c + 16) with (first_block st + (span pre + 16))
        by (unfold c; lia).
      apply in_range_passes; [assumption | lia]. }
    mred. rewrite Hoor.
    rewrite aligned_passes by (Z.to_euclidean_division_equations; lia).
    unfold ptr_add. replace (c + 16 + 4 * -4) with c by lia.
    mred. rewrite load_run by region. rewrite Hh. mred.
    replace (Int.sub (n + 1 + 2) 1) with (n + 2) by (int_small; lia).
    rewrite store_run by region. mred.
    assert (Hq : c + 4 * Z.quot (Int.sub (n + 2) 2) 4 = c + n).
    { replace (Int.sub (n + 2) 2) with n by (int_small; lia).
      Z.to_euclidean_division_equations; lia. }
    unfold next_busy_prev_busy. mred.
    rewrite load_run by region. rewrite peek_poke_eq. mred.
    unfold ptr_add. rewrite Hq.
    rewrite load_run by region. rewrite peek_poke_ne by lia. rewrite Hh'.
    replace (Z.land (m + 1 + 2) 1 =? 0) with false
      by (symmetry; apply Z.eqb_neq; rewrite land_1;
          Z.to_euclidean_division_equations; lia).
    mred. rewrite load_run by region. rewrite peek_poke_eq. mred.
    replace (Z.rem (n + 2) 4 =? 0) with false
      by (symmetry; apply Z.eqb_neq; Z.to_euclidean_division_equations; lia).
    mred.
    unfold free_both_busy. mred.
    rewrite load_run by region. rewrite peek_poke_eq. mred.
    rewrite load_run by region. rewrite peek_poke_eq. mred.
    unfold ptr_add. rewrite Hq.
    replace (c + n + 4 * -4) with (c + n - 16) by lia.
    rewrite store_run by region. mred.
    assert (Hc : peek (poke (poke st c (n + 2)) (c + n - 16) (n + 2)) c
                 = n + 2).
    { destruct (Z.eq_dec (c + n - 16) c) as [->|Hne];
        [apply peek_poke_eq|].
      rewrite peek_poke_ne by assumption. apply peek_poke_eq. }
    rewrite load_run by region. rewrite Hc. mred. rewrite Hq.
    rewrite load_run by region. rewrite !peek_poke_ne by lia. rewrite Hh'.
    mred.
    replace (Int.sub (m + 1 + 2) 2) with (m + 1) by (int_small; lia).
    rewrite store_run by region. reflexivity.
  - unfold layout.
    change (first_block (freed_alone st c n m)) with (first_block st).
    change (total_mem_size (freed_alone st c n m)) with (total_mem_size st).
    apply chain_app. fold c. rewrite Hprev. split.
    + apply (chain_frame st); [|exact Hpre].
      intros a Ha. unfold freed_alone. rewrite !peek_poke_ne by lia.
      reflexivity.
    + cbn [chain]. unfold header.
      split; [|split; [lia|split; [assumption|]]].
      { unfold freed_alone. rewrite peek_poke_ne by lia.
        destruct (Z.eq_dec (c + n - 16) c) as [->|Hne];
          [rewrite peek_poke_eq; lia|].
        rewrite peek_poke_ne by assumption. rewrite peek_poke_eq. lia. }
      split; [|split; [lia|split; [assumption|]]].
      { unfold freed_alone. rewrite peek_poke_eq. lia. }
      apply (chain_frame st); [|exact Hpost].
      intros a Ha. unfold freed_alone. rewrite !peek_poke_ne by lia.
      reflexivity.
Qed.

(** ** The scan of [Mem_Alloc] when a free block is not the last block *)

Lemma scan_steps_S k size best cur st :
  scan_steps (S k) size best cur st =
  if cur <? first_block st + total_mem_size st then
    match scan_step size best cur st with
    | Ok (bc, st') => scan_steps k size (fst bc) (snd bc) st'
    | Fault f => Fault f
    end
  else Ok ((best, cur), st).
Proof. cbn [scan_steps]. mred. destruct (cur <? _); reflexivity. Qed.

(** Busy blocks whose predecessors are busy take one iteration each. *)
Lemma scan_steps_busy_prefix st size best stop sizes k :
  forall cur,
    first_block st <= cur -> cur mod 4 = 0 ->
    stop <= first_block st + total_mem_size st ->
    stop - cur + 3 <= Int.max_signed ->
    chain st cur true (busy_blocks sizes) stop ->
    scan_steps (length sizes + k) size best cur st
    = scan_steps k size best stop st.
Proof.
  induction sizes as [|n l IH]; intros cur Hlo Hal Hstop Hmax H.
  - cbn in H. subst. reflexivity.
  - change (busy_blocks (n :: l)) with ((true, n) :: busy_blocks l) in H.
    destruct (chain_region _ _ _ _ _ _ _ Hlo Hal Hstop H)
      as (Hlt & Hin & Hal' & Hlo' & Hal'' & Hend).
    destruct H as (Hh & Hn & Hn4 & H).
    pose proof (chain_span _ _ _ _ _ H) as (Hs & Hl & _).
    cbn [length Nat.add].
    rewrite scan_steps_S. apply Z.ltb_lt in Hlt. rewrite Hlt.
    rewrite scan_step_busy; try assumption.
    2:{ rewrite Hh, land_1. unfold header.
        Z.to_euclidean_division_equations; lia. }
    rewrite Hh. cbn [fst snd].
    replace (Int.sub (header true true n) 3) with n
      by (unfold header; int_small; lia).
    apply IH; assumption || lia.
Qed.

(** A block whose header has the prev_allocated bit clear takes the scan 2
    bytes short of the next header. *)
Lemma scan_step_prev_free st size best cur b m :
  first_block st <= cur -> cur mod 4 = 0 ->
  cur + m <= first_block st + total_mem_size st ->
  m + 3 <= Int.max_signed ->
  peek st cur = header false b m ->
  4 <= m -> m mod 4 = 0 ->
  best = NULL \/ (in_region st best = true /\ aligned best = true) ->
  exists best', scan_step size best cur st = Ok ((best', cur + m - 2), st).
Proof.
  intros Hlo Hal Hend Hmax Hh Hm Hm4 Hbest.
  assert (Hin : in_region st cur = true) by (apply in_region_true; lia).
  assert (Hal' : aligned cur = true) by (apply aligned_true; assumption).
  destruct b.
  - rewrite scan_step_busy; try assumption.
    2:{ rewrite Hh, land_1. unfold header.
        Z.to_euclidean_division_equations; lia. }
    rewrite Hh.
    replace (Int.sub (header false true m) 3) with (m - 2)
      by (unfold header; int_small; lia).
    eexists. f_equal. f_equal. f_equal. lia.
  - rewrite scan_step_free; try assumption.
    2:{ rewrite Hh, land_1. unfold header.
        Z.to_euclidean_division_equations; lia. }
    rewrite Hh.
    replace (Int.sub (header false false m) 2) with (m - 2)
      by (unfold header; int_small; lia).
    eexists. f_equal. f_equal. f_equal. lia.
Qed.

Lemma scan_steps_free_block_not_last st sizes n b m post size :
  arena_ok st ->
  layout st (busy_blocks sizes ++ (false, n) :: (b, m) :: post) ->
  scan_steps (length sizes) size NULL (first_block st) st
  = Ok ((NULL, free_start st sizes), st)
  /\ scan_step size NULL (free_start st sizes) st
     = Ok ((if size <=? n + 2 then free_start st sizes else NULL,
            free_start st sizes + n), st)
  /\ (exists best,
        scan_steps (length sizes + 2) size NULL (first_block st) st
        = Ok ((best, free_start st sizes + n + m - 2), st))
  /\ free_start st sizes + n + m - 2 < first_block st + total_mem_size st
  /\ (free_start st sizes + n + m - 2) mod 4 = 2.
Proof.
  intros Hok H.
  pose proof Hok as (Hpos & Hal & H20 & H4 & Hmax & Hcast).
  destruct (layout_at _ _ _ _ _ Hal H)
    as (Hpre & Hh & Hn & Hn4 & Hnext & Hlo & Hc4 & Hend & Hp0).
  rewrite last_busy_busy_blocks in Hh.
  unfold free_start.
  set (c := first_block st + span (busy_blocks sizes)) in *.
  destruct Hnext as (Hh' & Hm & Hm4 & Hpost).
  pose proof (chain_span _ _ _ _ _ Hpost) as (Hs' & Hl & _).
  cbn [span] in Hend.
  assert (Hin : in_region st c = true) by (apply in_region_true; lia).
  assert (Hal' : aligned c = true) by (apply aligned_true; assumption).
  assert (Hstep : scan_step size NULL c st
                  = Ok ((if size <=? n + 2 then c else NULL, c + n), st)).
  { rewrite scan_step_free; try assumption; [|
      rewrite Hh, land_1; unfold header;
      Z.to_euclidean_division_equations; lia | left; reflexivity].
    rewrite Hh.
    replace (Int.sub (header true false n) 2) with n
      by (unfold header; int_small; lia).
    unfold header. replace (n + 0 + 2) with (n + 2) by lia.
    change (NULL =? NULL) with true. cbn [orb]. rewrite andb_true_r.
    reflexivity. }
  assert (Hprefix : forall k,
             scan_steps (length sizes + k) size NULL (first_block st) st
             = scan_steps k size NULL c st).
  { intros k. apply scan_steps_busy_prefix; try assumption; lia. }
  split; [|split; [exact Hstep|split; [|split]]].
  - rewrite <- (Nat.add_0_r (length sizes)). rewrite Hprefix. reflexivity.
  - rewrite Hprefix. rewrite scan_steps_S.
    replace (c <? first_block st + total_mem_size st) with true
      by (symmetry; apply Z.ltb_lt; lia).
    rewrite Hstep. cbn [fst snd].
    rewrite scan_steps_S.
    replace (c + n <? first_block st + total_mem_size st) with true
      by (symmetry; apply Z.ltb_lt; lia).
    destruct (scan_step_prev_free st size
                (if size <=? n + 2 then c else NULL) (c + n) b m)
      as (best & Hb); try assumption; try lia.
    + Z.to_euclidean_division_equations; lia.
    + destruct (size <=? n + 2);
        [right; split; assumption | left; reflexivity].
    + rewrite Hb. cbn [fst snd scan_steps]. exists best.
      replace (c + n + m - 2) with (c + n + m - 2) by lia. reflexivity.
  - lia.
  - Z.to_euclidean_division_equations; lia.
Qed.

(** ** What a successful load or store tells *)

Lemma check_inv a st u st' :
  check a st = Ok (u, st') ->
  in_region st a = true /\ aligned a = true /\ st' = st.
Proof.
  unfold check. mred.
  destruct (in_region st a); mred; [|discriminate].
  destruct (aligned a); mred; [|discriminate].
  intros [= _ <-]. auto.
Qed.

Lemma load_inv a st v st' :
  load a st = Ok (v, st') ->
  in_region st a = true /\ aligned a = true /\ v = peek st a /\ st' = st.
Proof.
  unfold load. intros H.
  apply bind_inv in H as (u & st1 & Hc & H).
  apply check_inv in Hc as (Hin & Hal & ->).
  injection H as <- <-. auto.
Qed.

Lemma store_inv a v st u st' :
  store a v st = Ok (u, st') ->
  in_region st a = true /\ aligned a = true /\ st' = poke st a v.
Proof.
  unfold store. intros H.
  apply bind_inv in H as (u' & st1 & Hc & H).
  apply check_inv in Hc as (Hin & Hal & ->).
  injection H as _ <-. auto.
Qed.

(** ** The block the scan selects *)

Lemma scan_step_candidate st size best cur bc st' :
  candidate st size best ->
  scan_step size best cur st = Ok (bc, st') ->
  st' = st /\ candidate st size (fst bc).
Proof.
  intros Hbest H. unfold scan_step in H.
  apply bind_inv in H as (t & st1 & Hl & H).
  apply load_inv in Hl as (Hin & Hal & -> & ->).
  destruct (Z.land (peek st cur) 1 =? 0) eqn:Hfree; cbn [negb] in H.
  2:{ injection H as <- <-. auto. }
  apply Z.eqb_eq in Hfree.
  apply bind_inv in H as (t & st1 & Hl & H).
  apply load_inv in Hl as (_ & _ & -> & ->).
  apply bind_inv in H as (better & st1 & Hb & H).
  injection H as <- <-. cbn [fst].
  destruct (Z.leb_spec size (peek st cur)) as [Hle|Hgt].
  2:{ injection Hb as <- <-. auto. }
  assert (Hcur : candidate st size cur) by (right; auto).
  destruct (best =? NULL).
  { injection Hb as <- <-. auto. }
  apply bind_inv in Hb as (t & st2 & Hl & Hb).
  apply load_inv in Hl as (_ & _ & -> & ->).
  apply bind_inv in Hb as (t & st2 & Hl & Hb).
  apply load_inv in Hl as (_ & _ & -> & ->).
  injection Hb as <- <-. split; [reflexivity|].
  destruct (peek st cur <? peek st best); assumption.
Qed.

Lemma scan_candidate fuel :
  forall st size best cur r st',
    candidate st size best ->
    scan fuel size best cur st = Ok (r, st') ->
    st' = st /\ candidate st size r.
Proof.
  induction fuel as [|fuel IH]; intros st size best cur r st' Hbest H;
    [discriminate|].
  rewrite scan_S in H.
  destruct (cur <? first_block st + total_mem_size st).
  2:{ injection H as <- <-. auto. }
  destruct (scan_step size best cur st) as [[bc st1]|f] eqn:Hstep;
    [|discriminate].
  apply (scan_step_candidate _ _ _ _ _ _ Hbest) in Hstep as (-> & Hbc).
  exact (IH _ _ _ _ _ _ Hbc H).
Qed.

(** ** What a successful [Mem_Alloc] selected *)

Lemma Mem_Alloc_selected fuel size st p st' :
  Mem_Alloc fuel size st = Ok (p, st') ->
  (p = NULL /\ st' = st)
  \/ (0 < size
      /\ in_region st (p - 16) = true /\ aligned (p - 16) = true
      /\ Z.land (peek st (p - 16)) 1 = 0
      /\ need size <= peek st (p - 16)
      /\ in_region st p = true /\ aligned p = true
      /\ first_block st' = first_block st
      /\ total_mem_size st' = total_mem_size st
      /\ allocated_once st' = allocated_once st).
Proof.
  unfold Mem_Alloc. intros H.
  destruct (Z.leb_spec size 0) as [Hle|Hpos];
    [injection H as <- <-; auto|].
  cbv zeta in H. change (Int.add (round_up4 size) 4) with (need size) in H.
  apply bind_inv in H as (fb & st0 & Hg & H).
  injection Hg as <- <-.
  apply bind_inv in H as (b & st1 & Hscan & H).
  apply scan_candidate in Hscan as (-> & Hb); [|left; reflexivity].
  destruct (b =? NULL) eqn:Hne; [injection H as <- <-; auto|].
  apply Z.eqb_neq in Hne.
  destruct Hb as [Hb|(Hin & Hal & Hfree & Hfit)]; [contradiction|].
  right.
  apply bind_inv in H as (h & st1 & Hl & H).
  apply load_inv in Hl as (_ & _ & -> & ->).
  apply bind_inv in H as (u & st1 & Hs & H).
  apply store_inv in Hs as (Hin1 & Hal1 & ->).
  apply bind_inv in H as (h & st2 & Hl & H).
  apply load_inv in Hl as (_ & _ & -> & ->).
  apply bind_inv in H as (u2 & st2 & Hs & H).
  apply store_inv in Hs as (_ & _ & ->).
  apply bind_inv in H as (u3 & st3 & Hs & H).
  apply store_inv in Hs as (_ & _ & ->).
  apply bind_inv in H as (h & st4 & Hl & H).
  apply load_inv in Hl as (_ & _ & -> & ->).
  apply bind_inv in H as (u5 & st5 & Hs & H).
  apply store_inv in Hs as (_ & _ & ->).
  injection H as <- <-.
  unfold ptr_add in *.
  replace (b + 4 * 4 - 16) with b by lia.
  repeat split; assumption || reflexivity.
Qed.

(** ** Fields of the state that no call touches *)

Section Preserves.
Context {X : Type} (f : state -> X).
Hypothesis f_poke : forall st a v, f (poke st a v) = f st.

Lemma preserves_ret {A} (a : A) : preserves f (ret a).
Proof. intros st a' st' [= _ <-]. reflexivity. Qed.

Lemma preserves_gets {A} (g : state -> A) : preserves f (gets g).
Proof. intros st a' st' [= _ <-]. reflexivity. Qed.

Lemma preserves_read_only {A} (m : M A) : read_only m -> preserves f m.
Proof. intros Hm st a st' H. rewrite (Hm _ _ _ H). reflexivity. Qed.

Lemma preserves_bind {A B} (m : M A) (k : A -> M B) :
  preserves f m -> (forall a, preserves f (k a)) -> preserves f (m ≫= k).
Proof.
  intros Hm Hk st b st' H.
  apply bind_inv in H as (a & st1 & H1 & H2).
  rewrite (Hk a _ _ _ H2). exact (Hm _ _ _ H1).
Qed.

Lemma preserves_if {A} (c : bool) (m1 m2 : M A) :
  preserves f m1 -> preserves f m2 -> preserves f (if c then m1 else m2).
Proof. destruct c; auto. Qed.

Lemma preserves_load a : preserves f (load a).
Proof. apply preserves_read_only, ro_load. Qed.

Lemma preserves_store a v : preserves f (store a v).
Proof.
  intros st u st' H. apply store_inv in H as (_ & _ & ->). apply f_poke.
Qed.

Lemma preserves_Mem_Alloc fuel size : preserves f (Mem_Alloc fuel size).
Proof.
  unfold Mem_Alloc. cbv zeta.
  repeat first
    [ apply preserves_ret | apply preserves_gets
    | apply preserves_load | apply preserves_store
    | apply preserves_read_only, ro_scan
    | apply preserves_if
    | apply preserves_bind; [|intros ?] ].
Qed.

Lemma preserves_Mem_Free ptr : preserves f (Mem_Free ptr).
Proof.
  unfold Mem_Free. cbv zeta.
  unfold next_busy_prev_busy, next_busy_prev_free, next_free_prev_busy,
    next_free_prev_free, free_both_busy, free_prev_free, free_next_free,
    free_both_free.
  repeat first
    [ apply preserves_ret | apply preserves_gets
    | apply preserves_load | apply preserves_store
    | apply preserves_if
    | apply preserves_bind; [|intros ?] ].
Qed.

Lemma preserves_run fuel ops : forall ptrs, preserves f (run fuel ops ptrs).
Proof.
  induction ops as [|[size|i] ops IH]; intros ptrs; cbn [run].
  - apply preserves_ret.
  - apply preserves_bind; [apply preserves_Mem_Alloc|intros p].
    apply preserves_bind; [apply IH|intros rs]. apply preserves_ret.
  - apply preserves_bind; [apply preserves_Mem_Free|intros c].
    apply preserves_bind; [apply IH|intros rs]. apply preserves_ret.
Qed.

End Preserves.

(** ** [Mem_Init] *)

Lemma Mem_Init_outcomes e n st r st' :
  Mem_Init e n st = Ok (r, st') ->
  (r = -1 /\ st' = st)
  \/ (r = 0 /\ allocated_once st = false /\ 0 < n /\ fd e <> -1
      /\ space_ptr e = Some (first_block st')
      /\ total_mem_size st' = page_round (pagesize e) n
      /\ allocated_once st' = true).
Proof.
  unfold Mem_Init. intros H.
  apply bind_inv in H as (once & st0 & Hg & H).
  injection Hg as <- <-.
  destruct (allocated_once st) eqn:Honce; [injection H as <- <-; auto|].
  destruct (Z.leb_spec n 0) as [Hle|Hpos]; [injection H as <- <-; auto|].
  cbv zeta in H.
  change (Int.add n (Z.rem (Int.sub (pagesize e) (Z.rem n (pagesize e))) (pagesize e)))
    with (page_round (pagesize e) n) in H.
  destruct (Z.eqb_spec (fd e) (-1)) as [Hfd|Hfd];
    [injection H as <- <-; auto|].
  destruct (space_ptr e) as [p|].
  - right.
    apply bind_inv in H as (u & st1 & Hm & H). injection Hm as _ <-.
    apply bind_inv in H as (u1 & st1 & Hs & H).
    apply store_inv in Hs as (_ & _ & ->).
    apply bind_inv in H as (h & st2 & Hl & H).
    apply load_inv in Hl as (_ & _ & -> & ->).
    apply bind_inv in H as (u2 & st2 & Hs & H).
    apply store_inv in Hs as (_ & _ & ->).
    apply bind_inv in H as (u3 & st3 & Hs & H).
    apply store_inv in Hs as (_ & _ & ->).
    injection H as <- <-. cbn [first_block total_mem_size allocated_once poke].
    repeat split; auto.
  - left.
    apply bind_inv in H as (u & st1 & Hm & H). injection Hm as _ <-.
    injection H as <- <-. split; [reflexivity|].
    destruct st; cbn in *; subst; reflexivity.
Qed.

(** ** Releasing the block allocated last *)

(** X14.  On an arena of allocated blocks followed by one free block, a
    successful [Mem_Alloc] followed by [Mem_Free] of the pointer it
    returned gives back the arena it started from: [Mem_Free] returns 0,
    the block list is again the same allocated blocks followed by one free
    block of the same size, and [Mem_Dump] prints what it printed before
    the allocation. *)
Theorem free_of_the_last_allocation_restores st sizes rest size fuel p st1 :
  arena_ok st ->
  alloc_only st sizes rest ->
  Int.in_range size ->
  Mem_Alloc fuel size st = Ok (p, st1) ->
  p <> NULL ->
  exists st2,
    Mem_Free p st1 = Ok (0, st2)
    /\ alloc_only st2 sizes rest
    /\ first_block st2 = first_block st
    /\ total_mem_size st2 = total_mem_size st
    /\ forall f, Mem_Dump (length sizes + 2 + f) st2
                 = Mem_Dump (length sizes + 2 + f) st.
Proof.
  intros Hok H Hsize Hrun Hp.
  destruct (Mem_Alloc_keeps_alloc_only _ _ _ _ _ _ _ Hok H Hsize Hrun Hp)
    as (-> & -> & Hroom & Hn & Hn4 & Hfuel).
  pose proof (carve_alloc_only _ _ _ _ H Hroom Hn Hn4) as H1.
  set (st1 := carve st (free_start st sizes) (need size) rest) in *.
  assert (Hok1 : arena_ok st1) by exact Hok.
  unfold alloc_only in H1. rewrite busy_blocks_app in H1.
  rewrite <- app_assoc in H1. cbn [busy_blocks map app] in H1.
  destruct (Mem_Free_merges_right st1 (busy_blocks sizes) (need size)
              (rest - need size) [] Hok1 H1 (last_busy_busy_blocks sizes)
              ltac:(lia)) as (Hfree & Hlay).
  change (first_block st1 + span (busy_blocks sizes))
    with (free_start st sizes) in Hfree, Hlay.
  replace (need size + (rest - need size)) with rest in Hlay by lia.
  eexists. split; [exact Hfree|].
  split; [exact Hlay|]. split; [reflexivity|]. split; [reflexivity|].
  intros f.
  set (st2 := merged_right _ _ _ _) in *.
  pose proof Hok as (Hpos & Hal & H20 & H4 & Hmax & Hcast).
  assert (Hlen : (length sizes + 2 + f
                  = length (busy_blocks sizes ++ [(false, rest)]) + S f)%nat)
    by (rewrite length_app, busy_blocks_length; cbn [length]; lia).
  rewrite Hlen.
  destruct (Mem_Dump_layout st2 _ f Hal Hmax Hlay) as (E2 & _).
  destruct (Mem_Dump_layout st _ f Hal Hmax H) as (E1 & _).
  etransitivity; [exact E2 | symmetry; exact E1].
Qed.

(** ** Releasing a block that is not the last allocated *)

(** X15.  On an arena of allocated blocks followed by one free block,
    [Mem_Free] of an allocated block of at least 16 bytes that is followed
    by another allocated block returns 0 and marks the block free.  In the
    arena it leaves, the scanning loop of every later [Mem_Alloc] reaches
    the freed block and, two iterations later, has [current] 2 bytes before
    the end of the block after it: an address below the end of the arena
    that is 2 modulo 4, the start of no block, from which the loop goes
    on. *)
Theorem inner_free_takes_the_scan_off_the_block_list st pre n m post rest :
  arena_ok st ->
  alloc_only st (pre ++ n :: m :: post) rest ->
  16 <= n ->
  exists st1,
    Mem_Free (free_start st pre + 16) st = Ok (0, st1)
    /\ layout st1 (busy_blocks pre ++ (false, n)
                     :: busy_blocks (m :: post) ++ [(false, rest)])
    /\ (forall size,
          exists best,
            scan_steps (length pre + 2) size NULL (first_block st1) st1
            = Ok ((best, free_start st1 pre + n + m - 2), st1))
    /\ free_start st1 pre + n + m - 2
       < first_block st1 + total_mem_size st1
    /\ (free_start st1 pre + n + m - 2) mod 4 = 2.
Proof.
  intros Hok H Hn.
  unfold alloc_only in H. rewrite busy_blocks_app in H.
  rewrite <- app_assoc in H.
  change (busy_blocks (n :: m :: post))
    with ((true, n) :: (true, m) :: busy_blocks post) in H.
  cbn [app] in H.
  destruct (Mem_Free_between_busy st (busy_blocks pre) n m
              (busy_blocks post ++ [(false, rest)]) Hok H
              (last_busy_busy_blocks pre) Hn) as (Hfree & Hlay).
  eexists. split; [exact Hfree|]. split; [exact Hlay|].
  match type of Hlay with layout ?s _ => set (st1 := s) in * end.
  assert (Hok1 : arena_ok st1) by exact Hok.
  split; [|split].
  - intros size.
    destruct (scan_steps_free_block_not_last _ _ _ _ _ _ size Hok1 Hlay)
      as (_ & _ & Hsteps & _).
    exact Hsteps.
  - destruct (scan_steps_free_block_not_last _ _ _ _ _ _ 0 Hok1 Hlay)
      as (_ & _ & _ & Hlt & _).
    exact Hlt.
  - destruct (scan_steps_free_block_not_last _ _ _ _ _ _ 0 Hok1 Hlay)
      as (_ & _ & _ & _ & Hmod).
    exact Hmod.
Qed.

(** X16.  When the first block of the arena is smaller than 16 bytes (a
    request of at most 8 bytes) and an allocated block follows it,
    [Mem_Free] of the pointer [Mem_Alloc] returned for it writes the footer
    below the start of the arena. *)
Theorem Mem_Free_of_a_small_first_block_faults st n m post rest :
  arena_ok st ->
  alloc_only st (n :: m :: post) rest ->
  n < 16 ->
  Mem_Free (first_block st + 16) st
  = Fault (OutOfBounds (first_block st + n - 16)).
Proof.
  intros Hok H Hsmall.
  pose proof Hok as (Hpos & Hal & H20 & H4 & Hmax & Hcast).
  unfold alloc_only, layout in H.
  change (busy_blocks (n :: m :: post) ++ [(false, rest)])
    with ((true, n) :: (true, m) :: (busy_blocks post ++ [(false, rest)])) in H.
  destruct H as (Hh & Hn & Hn4 & Hh' & Hm & Hm4 & Hpost).
  unfold header in Hh, Hh'.
  pose proof (chain_span _ _ _ _ _ Hpost) as (Hs & Hl & _).
  set (c := first_block st) in *.
  unfold Mem_Free.
  replace (is_null (c + 16)) with false
    by (symmetry; apply Z.eqb_neq; unfold NULL; lia).
  assert (Hoor : out_of_range st (c + 16) = false)
    by (apply in_range_passes; [assumption | lia]).
  mred. rewrite Hoor.
  rewrite aligned_passes by (Z.to_euclidean_division_equations; lia).
  unfold ptr_add. replace (c + 16 + 4 * -4) with c by lia.
  mred. rewrite load_run by region. rewrite Hh. mred.
  replace (Int.sub (n + 1 + 2) 1) with (n + 2) by (int_small; lia).
  rewrite store_run by region. mred.
  assert (Hq : c + 4 * Z.quot (Int.sub (n + 2) 2) 4 = c + n).
  { replace (Int.sub (n + 2) 2) with n by (int_small; lia).
    Z.to_euclidean_division_equations; lia. }
  unfold next_busy_prev_busy. mred.
  rewrite load_run by region. rewrite peek_poke_eq. mred.
  unfold ptr_add. rewrite Hq.
  rewrite load_run by region. rewrite peek_poke_ne by lia. rewrite Hh'.
  replace (Z.land (m + 1 + 2) 1 =? 0) with false
    by (symmetry; apply Z.eqb_neq; rewrite land_1;
        Z.to_euclidean_division_equations; lia).
  mred. rewrite load_run by region. rewrite peek_poke_eq. mred.
  replace (Z.rem (n + 2) 4 =? 0) with false
    by (symmetry; apply Z.eqb_neq; Z.to_euclidean_division_equations; lia).
  mred.
  unfold free_both_busy. mred.
  rewrite load_run by region. rewrite peek_poke_eq. mred.
  rewrite load_run by region. rewrite peek_poke_eq. mred.
  unfold ptr_add. rewrite Hq.
  replace (c + n + 4 * -4) with (c + n - 16) by lia.
  rewrite store_out; [reflexivity|].
  apply in_region_false. cbn [first_block total_mem_size poke]. fold c. lia.
Qed.

(** ** The four calls *)

Lemma Mem_Init_refuses e n st :
  allocated_once st = true \/ n <= 0 \/ fd e = -1 \/ space_ptr e = None ->
  Mem_Init e n st = Ok (-1, st).
Proof.
  intros H. unfold Mem_Init. mred.
  destruct (allocated_once st) eqn:Honce; [reflexivity|].
  destruct (Z.leb_spec n 0) as [Hle|Hpos]; [reflexivity|].
  cbv zeta.
  destruct (Z.eqb_spec (fd e) (-1)) as [Hfd|Hfd]; [reflexivity|].
  destruct H as [H|[H|[H|H]]]; [discriminate | lia | contradiction |].
  rewrite H. mred.
  destruct st; cbn in *; subst; reflexivity.
Qed.

(** X1.  [Mem_Init] returns -1 and leaves the allocator as it was when it
    has succeeded before, when the size is not positive, when [open] fails
    or when [mmap] fails.  It returns nothing but 0 and -1; when it returns
    0, none of these was the case, [first_block] is the address [mmap]
    returned, [total_mem_size] is the requested size rounded up to a whole
    number of pages, and the allocator is marked as initialised. *)
Theorem Mem_Init_returns e n st :
  (allocated_once st = true \/ n <= 0 \/ fd e = -1 \/ space_ptr e = None ->
   Mem_Init e n st = Ok (-1, st))
  /\ forall r st',
       Mem_Init e n st = Ok (r, st') ->
       (r = -1 /\ st' = st)
       \/ (r = 0 /\ allocated_once st = false /\ 0 < n /\ fd e <> -1
           /\ space_ptr e = Some (first_block st')
           /\ total_mem_size st' = page_round (pagesize e) n
           /\ allocated_once st' = true).
Proof.
  split; [apply Mem_Init_refuses | apply Mem_Init_outcomes].
Qed.

(** X2.  In a sound environment [Mem_Init] of the pristine allocator returns
    0.  The arena starts at the address [mmap] returned; its size is the
    least multiple of the page size that is at least the requested size;
    it is one free block, whose header records a busy predecessor, and
    [Mem_Dump] prints that block alone. *)
Theorem Mem_Init_sets_up_one_free_block e n :
  env_ok e n ->
  exists st,
    Mem_Init e n initial_state = Ok (0, st)
    /\ arena_ok st
    /\ space_ptr e = Some (first_block st)
    /\ total_mem_size st = page_round (pagesize e) n
    /\ n <= total_mem_size st < n + pagesize e
    /\ (pagesize e | total_mem_size st)
    /\ layout st [(false, total_mem_size st)]
    /\ forall f, Mem_Dump (S (S f)) st
                 = ([whole_arena_row st], Totals 0 (total_mem_size st)).
Proof.
  intros (p & Hp & Hfd & Hp0 & Hp4 & HP20 & HP4 & Hn & Hmax & Hcast).
  destruct (Mem_Init_arena e n p Hp Hfd Hp0 Hp4 HP20 HP4 Hn Hmax Hcast)
    as (st & Hinit & Hok & Hsingle & Hfb & HT).
  destruct (page_round_spec (pagesize e) n) as (Hr & Hdiv); try lia.
  exists st. split; [exact Hinit|]. split; [exact Hok|].
  split; [congruence|]. split; [exact HT|].
  split; [rewrite HT; exact Hr|]. split; [rewrite HT; exact Hdiv|].
  pose proof (single_block_alloc_only _ Hok Hsingle) as Hlay.
  split; [exact Hlay|].
  intros f. apply Mem_Dump_single; assumption.
Qed.

(** X3.  [Mem_Init] succeeds at most once.  After a successful [Mem_Init],
    whatever calls of [Mem_Alloc] and [Mem_Free] follow, a further
    [Mem_Init] returns -1 and changes nothing, and the arena's address and
    size are still those the first call set. *)
Theorem Mem_Init_succeeds_only_once e n fuel ops ptrs e' n' st st1 rs st2 :
  Mem_Init e n st = Ok (0, st1) ->
  run fuel ops ptrs st1 = Ok (rs, st2) ->
  Mem_Init e' n' st2 = Ok (-1, st2)
  /\ first_block st2 = first_block st1
  /\ total_mem_size st2 = total_mem_size st1.
Proof.
  intros Hi Hr.
  apply Mem_Init_outcomes in Hi as [(Hx & _)|(_ & _ & _ & _ & _ & _ & Hon)];
    [discriminate|].
  split; [|split].
  - apply Mem_Init_refuses. left.
    rewrite (preserves_run allocated_once (fun _ _ _ => eq_refl) _ _ _ _ _ _ Hr).
    exact Hon.
  - exact (preserves_run first_block (fun _ _ _ => eq_refl) _ _ _ _ _ _ Hr).
  - exact (preserves_run total_mem_size (fun _ _ _ => eq_refl) _ _ _ _ _ _ Hr).
Qed.

(** X4.  As long as no [Mem_Init] has succeeded ([first_block] is null and
    [total_mem_size] is 0), [Mem_Alloc] returns the null pointer,
    [Mem_Free] returns -1 for every pointer whose [int] value is not 0, and
    [Mem_Dump] prints no block and totals of 0; none of them changes the
    allocator. *)
Theorem calls_before_Mem_Init st ptr size fuel :
  first_block st = NULL ->
  total_mem_size st = 0 ->
  Int.wrap ptr <> 0 ->
  Mem_Alloc (S fuel) size st = Ok (NULL, st)
  /\ Mem_Free ptr st = Ok (-1, st)
  /\ Mem_Dump (S fuel) st = ([], Totals 0 0).
Proof.
  intros Hfb HT Hptr. split; [|split].
  - unfold Mem_Alloc. destruct (size <=? 0); [reflexivity|].
    cbv zeta. mred. rewrite scan_S.
    replace (first_block st <? first_block st + total_mem_size st) with false
      by (symmetry; apply Z.ltb_ge; lia).
    reflexivity.
  - apply Mem_Free_refused. unfold refused.
    destruct (is_null ptr); [reflexivity|].
    replace (out_of_range st ptr) with true; [reflexivity|].
    symmetry. unfold out_of_range. rewrite Hfb, HT.
    change (Int.wrap NULL) with 0. change (Int.add 0 0) with 0.
    apply orb_true_iff.
    destruct (Z.ltb_spec (Int.wrap ptr) 0); [auto|right].
    rewrite Z.gtb_ltb. apply Z.ltb_lt. lia.
  - assert (Hlt : (first_block st <? first_block st + total_mem_size st)
                  = false) by (apply Z.ltb_ge; lia).
    unfold Mem_Dump. cbn [dump_loop].
    destruct (first_block st <? first_block st + total_mem_size st);
      [discriminate Hlt | reflexivity].
Qed.

(** X5.  When the arena is a sequence of blocks, each header holding the
    block's size, its busy bit and the busy bit of the block before it,
    [Mem_Dump] prints exactly these blocks, in order, numbered from 1, with
    their flags, first and last addresses and sizes, and ends with the
    totals of the busy and of the free bytes; the two totals, and the sizes
    of the rows, add up to [total_mem_size]. *)
Theorem Mem_Dump_reports_the_block_list st blocks f :
  first_block st mod 4 = 0 ->
  total_mem_size st + 3 <= Int.max_signed ->
  layout st blocks ->
  Mem_Dump (length blocks + S f) st
  = (rows_of (first_block st) 1 true blocks,
     Totals (busy_bytes blocks) (free_bytes blocks))
  /\ busy_bytes blocks + free_bytes blocks = total_mem_size st
  /\ total_of (rows_of (first_block st) 1 true blocks) = total_mem_size st.
Proof. apply Mem_Dump_layout. Qed.

(** X6.  [Mem_Alloc] on an arena of allocated blocks followed by one free
    block of [rest] bytes, for a request that needs [need size] bytes
    (the size rounded up to a multiple of 4, plus 4).  When the need
    exceeds [rest + 2] the call returns the null pointer and changes
    nothing.  Otherwise, when the need is at most [rest - 4], it returns
    the address 16 bytes past the start of the free block, having made the
    first [need size] bytes of that block a busy block and the remainder a
    free block.  In the cases between (the need within 4 bytes of the free
    block's size, or a block of fewer than 20 bytes, or a need that
    overflowed) it writes outside the arena. *)
Theorem Mem_Alloc_after_allocations st sizes rest size fuel :
  arena_ok st ->
  alloc_only st sizes rest ->
  0 < size <= Int.max_signed ->
  (length sizes + 2 <= fuel)%nat ->
  Mem_Alloc fuel size st
  = (if rest + 2 <? need size then Ok (NULL, st)
     else if rest <? 20 then Fault (OutOfBounds (free_start st sizes + 16))
     else if (8 <=? need size) && (need size <=? rest - 4)
     then Ok (free_start st sizes + 16,
              carve st (free_start st sizes) (need size) rest)
     else Fault (OutOfBounds (ptr_add (free_start st sizes)
                                      (Z.quot (need size) 4))))
  /\ (20 <= rest -> 8 <= need size <= rest - 4 -> need size mod 4 = 0 ->
      alloc_only (carve st (free_start st sizes) (need size) rest)
                 (sizes ++ [need size]) (rest - need size)).
Proof.
  intros Hok H Hsize Hfuel.
  split; [apply Mem_Alloc_alloc_only; assumption|].
  intros Hroom Hn Hn4. apply carve_alloc_only; assumption.
Qed.

(** X8.  A [Mem_Alloc] that returns the null pointer has changed nothing:
    neither the globals nor a word of the arena. *)
Theorem Mem_Alloc_failure_changes_nothing fuel size st st' :
  0 <= first_block st ->
  Mem_Alloc fuel size st = Ok (NULL, st') ->
  st' = st.
Proof.
  intros Hfb H.
  apply Mem_Alloc_selected in H as [(_ & ->)|(_ & Hin & _)];
    [reflexivity|].
  unfold in_region, NULL in Hin.
  apply andb_true_iff in Hin as (Hlo & _). apply Z.leb_le in Hlo. lia.
Qed.

(** X9.  In a call of [Mem_Alloc] that returns, every access having been
    to a 4-byte aligned word of the arena, a non-null result is 16 bytes
    past a word that read, before the call, as the header of a free block
    (an even value) and was at least the needed size, the request rounded
    up to a multiple of 4 plus 4.  The request was positive, and the call
    leaves [first_block], [total_mem_size] and the initialisation mark
    alone. *)
Theorem Mem_Alloc_returns_a_free_block_that_fits fuel size st p st' :
  Mem_Alloc fuel size st = Ok (p, st') ->
  p <> NULL ->
  0 < size
  /\ Z.land (peek st (p - 16)) 1 = 0
  /\ need size <= peek st (p - 16)
  /\ first_block st' = first_block st
  /\ total_mem_size st' = total_mem_size st
  /\ allocated_once st' = allocated_once st.
Proof.
  intros H Hp.
  apply Mem_Alloc_selected in H
    as [(-> & _)|(H0 & _ & _ & H3 & H4 & _ & _ & H7 & H8 & H9)];
    [contradiction|].
  repeat split; assumption.
Qed.

(** X11.  [Mem_Free] returns -1 exactly for the pointers one of its three
    guards refuses (null, out of range, not a multiple of 4), and then
    changes nothing.  It returns nothing but 0 and -1, and whatever it does
    it leaves [first_block], [total_mem_size] and the initialisation mark
    alone. *)
Theorem Mem_Free_refuses_without_a_change ptr st :
  (refused st ptr = true -> Mem_Free ptr st = Ok (-1, st))
  /\ forall r st',
       Mem_Free ptr st = Ok (r, st') ->
       ((r = -1 /\ refused st ptr = true /\ st' = st)
        \/ (r = 0 /\ refused st ptr = false))
       /\ first_block st' = first_block st
       /\ total_mem_size st' = total_mem_size st
       /\ allocated_once st' = allocated_once st.
Proof.
  split; [apply Mem_Free_refused|].
  intros r st' H. split; [|split; [|split]].
  - destruct (Mem_Free_status _ _ _ _ H) as [(Hr & -> & ->) | (Hr & ->)];
      [left | right]; auto.
  - exact (preserves_Mem_Free first_block (fun _ _ _ => eq_refl) _ _ _ _ H).
  - exact (preserves_Mem_Free total_mem_size (fun _ _ _ => eq_refl) _ _ _ _ H).
  - exact (preserves_Mem_Free allocated_once (fun _ _ _ => eq_refl) _ _ _ _ H).
Qed.

(** X12.  [Mem_Free] of a busy block of at least 16 bytes whose two
    neighbours are busy (or which is the first block) returns 0 and leaves
    a block list that differs only in that the block is now free and the
    next block records a free predecessor. *)
Theorem Mem_Free_between_busy_blocks st pre n m post :
  arena_ok st ->
  layout st (pre ++ (true, n) :: (true, m) :: post) ->
  last_busy true pre = true ->
  16 <= n ->
  exists st',
    Mem_Free (first_block st + span pre + 16) st = Ok (0, st')
    /\ st' = freed_alone st (first_block st + span pre) n m
    /\ layout st' (pre ++ (false, n) :: (true, m) :: post).
Proof.
  intros Hok H Hprev Hn.
  destruct (Mem_Free_between_busy _ _ _ _ _ Hok H Hprev Hn) as (Hf & Hl).
  eexists. split; [exact Hf|]. split; [reflexivity | exact Hl].
Qed.

(** X13.  [Mem_Free] of a busy block whose predecessor is busy (or which is
    the first block) and whose successor is free returns 0 and merges the
    two: the block list holds one free block of the two sizes together in
    their place, and is otherwise unchanged. *)
Theorem Mem_Free_merges_with_the_next_block st pre n m post :
  arena_ok st ->
  layout st (pre ++ (true, n) :: (false, m) :: post) ->
  last_busy true pre = true ->
  16 <= n + m ->
  exists st',
    Mem_Free (first_block st + span pre + 16) st = Ok (0, st')
    /\ st' = merged_right st (first_block st + span pre) n m
    /\ layout st' (pre ++ (false, n + m) :: post).
Proof.
  intros Hok H Hprev Hn.
  destruct (Mem_Free_merges_right _ _ _ _ _ Hok H Hprev Hn) as (Hf & Hl).
  eexists. split; [exact Hf|]. split; [reflexivity | exact Hl].
Qed.

(** X17.  The scanning loop of [Mem_Alloc] leaves the block list at a free
    block that is not the last block.  When the arena is allocated blocks,
    then a free block of [n] bytes, then a block of [m] bytes, the loop
    reaches the free block with [best_slot] still null, takes it as
    [best_slot] when its header, [n + 2], is at least the size looked for,
    and steps to the next block; from there it steps [m - 2] bytes, the
    prev_allocated bit of that block being clear, to an address below the
    end of the arena that is 2 modulo 4, the start of no block, and the
    loop goes on from there. *)
Theorem Mem_Alloc_scan_leaves_the_block_list st sizes n b m post size :
  arena_ok st ->
  layout st (busy_blocks sizes ++ (false, n) :: (b, m) :: post) ->
  scan_steps (length sizes) size NULL (first_block st) st
  = Ok ((NULL, free_start st sizes), st)
  /\ scan_step size NULL (free_start st sizes) st
     = Ok ((if size <=? n + 2 then free_start st sizes else NULL,
            free_start st sizes + n), st)
  /\ (exists best,
        scan_steps (length sizes + 2) size NULL (first_block st) st
        = Ok ((best, free_start st sizes + n + m - 2), st))
  /\ free_start st sizes + n + m - 2 < first_block st + total_mem_size st
  /\ (free_start st sizes + n + m - 2) mod 4 = 2.
Proof. apply scan_steps_free_block_not_last. Qed.

(** ** The block-list theorems at concrete inputs *)

(** [Mem_Init] with a failing [mmap], and the first [Mem_Init] of the
    4096-byte arena. *)
Lemma Mem_Init_returns_witness :
  Mem_Init {| pagesize := 4096; fd := 3; space_ptr := None |} 4096
           initial_state
  = Ok (-1, initial_state)
  /\ ((0 = -1 /\ arena0 = initial_state)
      \/ (0 = 0 /\ allocated_once initial_state = false /\ 0 < 4096
          /\ fd env0 <> -1
          /\ space_ptr env0 = Some (first_block arena0)
          /\ total_mem_size arena0 = page_round (pagesize env0) 4096
          /\ allocated_once arena0 = true)).
Proof.
  assert (H : Mem_Init env0 4096 initial_state = Ok (0, arena0)) by evaluate.
  split.
  - apply (Mem_Init_returns {| pagesize := 4096; fd := 3; space_ptr := None |}
             4096 initial_state).
    right; right; right. reflexivity.
  - exact (proj2 (Mem_Init_returns env0 4096 initial_state) 0 arena0 H).
Defined.

Lemma Mem_Init_sets_up_one_free_block_witness :
  env_ok env0 4096
  /\ exists st,
       Mem_Init env0 4096 initial_state = Ok (0, st)
       /\ arena_ok st
       /\ space_ptr env0 = Some (first_block st)
       /\ total_mem_size st = page_round (pagesize env0) 4096
       /\ 4096 <= total_mem_size st < 4096 + pagesize env0
       /\ (pagesize env0 | total_mem_size st)
       /\ layout st [(false, total_mem_size st)]
       /\ forall f, Mem_Dump (S (S f)) st
                    = ([whole_arena_row st], Totals 0 (total_mem_size st)).
Proof.
  assert (H : env_ok env0 4096) by (exists 65536; evaluate).
  exact (conj H (Mem_Init_sets_up_one_free_block env0 4096 H)).
Defined.

(** A second [Mem_Init] after an allocation and its release. *)
Lemma Mem_Init_succeeds_only_once_witness :
  Mem_Init env0 4096 initial_state = Ok (0, arena0)
  /\ run 100 [Alloc 12; Free 0] [] arena0
     = Ok ([Ptr 65552; Status 0], state_after [Alloc 12; Free 0])
  /\ Mem_Init env0 8192 (state_after [Alloc 12; Free 0])
     = Ok (-1, state_after [Alloc 12; Free 0])
  /\ first_block (state_after [Alloc 12; Free 0]) = first_block arena0
  /\ total_mem_size (state_after [Alloc 12; Free 0]) = total_mem_size arena0.
Proof.
  assert (H1 : Mem_Init env0 4096 initial_state = Ok (0, arena0)) by evaluate.
  assert (H2 : run 100 [Alloc 12; Free 0] [] arena0
               = Ok ([Ptr 65552; Status 0], state_after [Alloc 12; Free 0]))
    by evaluate.
  exact (conj H1 (conj H2
           (Mem_Init_succeeds_only_once env0 4096 100 [Alloc 12; Free 0] []
              env0 8192 initial_state arena0 _ _ H1 H2))).
Defined.

Lemma calls_before_Mem_Init_witness :
  Mem_Alloc 1 12 initial_state = Ok (NULL, initial_state)
  /\ Mem_Free 65552 initial_state = Ok (-1, initial_state)
  /\ Mem_Dump 1 initial_state = ([], Totals 0 0).
Proof.
  assert (H1 : first_block initial_state = NULL) by evaluate.
  assert (H2 : total_mem_size initial_state = 0) by evaluate.
  assert (H3 : Int.wrap 65552 <> 0) by evaluate.
  exact (calls_before_Mem_Init initial_state 65552 12 0 H1 H2 H3).
Defined.

(** The report after allocations of 12 and 28 bytes. *)
Lemma Mem_Dump_reports_the_block_list_witness :
  layout (state_after [Alloc 12; Alloc 28])
         [(true, 16); (true, 32); (false, 4048)]
  /\ Mem_Dump 4 (state_after [Alloc 12; Alloc 28])
     = (rows_of 65536 1 true [(true, 16); (true, 32); (false, 4048)],
        Totals 48 4048)
  /\ 48 + 4048 = total_mem_size (state_after [Alloc 12; Alloc 28])
  /\ total_of (rows_of 65536 1 true [(true, 16); (true, 32); (false, 4048)])
     = total_mem_size (state_after [Alloc 12; Alloc 28]).
Proof.
  assert (H1 : first_block (state_after [Alloc 12; Alloc 28]) mod 4 = 0)
    by evaluate.
  assert (H2 : total_mem_size (state_after [Alloc 12; Alloc 28]) + 3
               <= Int.max_signed) by evaluate.
  assert (H3 : layout (state_after [Alloc 12; Alloc 28])
                      [(true, 16); (true, 32); (false, 4048)]) by evaluate.
  exact (conj H3 (Mem_Dump_reports_the_block_list _ _ 0 H1 H2 H3)).
Defined.

(** A second allocation, of 28 bytes, after one of 12. *)
Lemma Mem_Alloc_after_allocations_witness :
  alloc_only (state_after [Alloc 12]) [16] 4080
  /\ Mem_Alloc 3 28 (state_after [Alloc 12])
     = Ok (65568, carve (state_after [Alloc 12]) 65552 32 4080)
  /\ (20 <= 4080 -> 8 <= 32 <= 4080 - 4 -> 32 mod 4 = 0 ->
      alloc_only (carve (state_after [Alloc 12]) 65552 32 4080)
                 [16; 32] 4048).
Proof.
  assert (H1 : arena_ok (state_after [Alloc 12])) by evaluate.
  assert (H2 : alloc_only (state_after [Alloc 12]) [16] 4080) by evaluate.
  assert (H3 : 0 < 28 <= Int.max_signed) by evaluate.
  assert (H4 : (length [16] + 2 <= 3)%nat) by (simpl; lia).
  exact (conj H2 (Mem_Alloc_after_allocations _ [16] 4080 28 3 H1 H2 H3 H4)).
Defined.

(** A request larger than the arena. *)
Lemma Mem_Alloc_failure_changes_nothing_witness :
  Mem_Alloc 2 5000 arena0 = Ok (NULL, arena0) /\ arena0 = arena0.
Proof.
  assert (H1 : 0 <= first_block arena0) by evaluate.
  assert (H2 : Mem_Alloc 2 5000 arena0 = Ok (NULL, arena0)) by evaluate.
  exact (conj H2 (Mem_Alloc_failure_changes_nothing 2 5000 arena0 arena0 H1 H2)).
Defined.

Lemma Mem_Alloc_returns_a_free_block_that_fits_witness :
  Mem_Alloc 3 28 (state_after [Alloc 12])
  = Ok (65568, state_after [Alloc 12; Alloc 28])
  /\ 0 < 28
  /\ Z.land (peek (state_after [Alloc 12]) (65568 - 16)) 1 = 0
  /\ need 28 <= peek (state_after [Alloc 12]) (65568 - 16)
  /\ first_block (state_after [Alloc 12; Alloc 28])
     = first_block (state_after [Alloc 12])
  /\ total_mem_size (state_after [Alloc 12; Alloc 28])
     = total_mem_size (state_after [Alloc 12])
  /\ allocated_once (state_after [Alloc 12; Alloc 28])
     = allocated_once (state_after [Alloc 12]).
Proof.
  assert (H1 : Mem_Alloc 3 28 (state_after [Alloc 12])
               = Ok (65568, state_after [Alloc 12; Alloc 28])) by evaluate.
  assert (H2 : 65568 <> NULL) by evaluate.
  exact (conj H1
           (Mem_Alloc_returns_a_free_block_that_fits 3 28 _ 65568 _ H1 H2)).
Defined.

(** A pointer that is not a multiple of 4. *)
Lemma Mem_Free_refuses_without_a_change_witness :
  refused arena0 65554 = true
  /\ Mem_Free 65554 arena0 = Ok (-1, arena0)
  /\ ((-1 = -1 /\ refused arena0 65554 = true /\ arena0 = arena0)
      \/ (-1 = 0 /\ refused arena0 65554 = false)).
Proof.
  assert (H1 : refused arena0 65554 = true) by evaluate.
  pose (H2 := proj1 (Mem_Free_refuses_without_a_change 65554 arena0) H1).
  exact (conj H1 (conj H2
           (proj1 (proj2 (Mem_Free_refuses_without_a_change 65554 arena0)
                     (-1) arena0 H2)))).
Defined.

(** The release of the first of two 32-byte blocks. *)
Lemma Mem_Free_between_busy_blocks_witness :
  layout (state_after [Alloc 28; Alloc 28])
         ([] ++ (true, 32) :: (true, 32) :: [(false, 4032)])
  /\ exists st',
       Mem_Free (first_block (state_after [Alloc 28; Alloc 28]) + span [] + 16)
                (state_after [Alloc 28; Alloc 28]) = Ok (0, st')
       /\ st' = freed_alone (state_after [Alloc 28; Alloc 28])
                  (first_block (state_after [Alloc 28; Alloc 28]) + span [])
                  32 32
       /\ layout st' ([] ++ (false, 32) :: (true, 32) :: [(false, 4032)]).
Proof.
  assert (H1 : arena_ok (state_after [Alloc 28; Alloc 28])) by evaluate.
  assert (H2 : layout (state_after [Alloc 28; Alloc 28])
                 ([] ++ (true, 32) :: (true, 32) :: [(false, 4032)]))
    by evaluate.
  assert (H3 : last_busy true [] = true) by evaluate.
  assert (H4 : 16 <= 32) by evaluate.
  exact (conj H2 (Mem_Free_between_busy_blocks _ [] 32 32 [(false, 4032)]
                    H1 H2 H3 H4)).
Defined.

(** The release of the second block, of 32 bytes, after allocations of 12
    and 28 bytes. *)
Lemma Mem_Free_merges_with_the_next_block_witness :
  layout (state_after [Alloc 12; Alloc 28])
         ([(true, 16)] ++ (true, 32) :: (false, 4048) :: [])
  /\ exists st',
       Mem_Free (first_block (state_after [Alloc 12; Alloc 28])
                 + span [(true, 16)] + 16)
                (state_after [Alloc 12; Alloc 28]) = Ok (0, st')
       /\ st' = merged_right (state_after [Alloc 12; Alloc 28])
                  (first_block (state_after [Alloc 12; Alloc 28])
                   + span [(true, 16)]) 32 4048
       /\ layout st' ([(true, 16)] ++ (false, 32 + 4048) :: []).
Proof.
  assert (H1 : arena_ok (state_after [Alloc 12; Alloc 28])) by evaluate.
  assert (H2 : layout (state_after [Alloc 12; Alloc 28])
                 ([(true, 16)] ++ (true, 32) :: (false, 4048) :: []))
    by evaluate.
  assert (H3 : last_busy true [(true, 16)] = true) by evaluate.
  assert (H4 : 16 <= 32 + 4048) by evaluate.
  exact (conj H2 (Mem_Free_merges_with_the_next_block _ [(true, 16)] 32 4048 []
                    H1 H2 H3 H4)).
Defined.

(** Allocations of 12 and 28 bytes on the 4096-byte arena. *)
Lemma allocations_partition_the_arena_witness :
  client env0 4096 100 (map Alloc [12; 28])
  = Ok ([Status 0; Ptr 65552; Ptr 65568], state_after [Alloc 12; Alloc 28])
  /\ exists rest,
       alloc_only (state_after [Alloc 12; Alloc 28]) (map need [12; 28]) rest
       /\ total_mem_size (state_after [Alloc 12; Alloc 28])
          = page_round (pagesize env0) 4096
       /\ span (busy_blocks (map need [12; 28])) + rest
          = total_mem_size (state_after [Alloc 12; Alloc 28])
       /\ forall f,
            Mem_Dump (length [12; 28] + 2 + f) (state_after [Alloc 12; Alloc 28])
            = (rows_of (first_block (state_after [Alloc 12; Alloc 28])) 1 true
                 (busy_blocks (map need [12; 28]) ++ [(false, rest)]),
               Totals (span (busy_blocks (map need [12; 28]))) rest)
            /\ total_of (fst (Mem_Dump (length [12; 28] + 2 + f)
                                (state_after [Alloc 12; Alloc 28])))
               = total_mem_size (state_after [Alloc 12; Alloc 28])
            /\ adjacent_free (fst (Mem_Dump (length [12; 28] + 2 + f)
                                     (state_after [Alloc 12; Alloc 28])))
               = false.
Proof.
  assert (H1 : env_ok env0 4096) by (exists 65536; evaluate).
  assert (H2 : Forall Int.in_range [12; 28])
    by (repeat (constructor; [evaluate|]); constructor).
  assert (H3 : client env0 4096 100 (map Alloc [12; 28])
               = Ok ([Status 0; Ptr 65552; Ptr 65568],
                     state_after [Alloc 12; Alloc 28])) by evaluate.
  assert (H4 : forallb succeeded [Status 0; Ptr 65552; Ptr 65568] = true)
    by evaluate.
  exact (conj H3
           (allocations_partition_the_arena env0 4096 100 [12; 28] _ _
              H1 H2 H3 H4)).
Defined.

(** An allocation of 28 bytes after one of 12, and its release. *)
Lemma free_of_the_last_allocation_restores_witness :
  Mem_Alloc 3 28 (state_after [Alloc 12])
  = Ok (65568, state_after [Alloc 12; Alloc 28])
  /\ exists st2,
       Mem_Free 65568 (state_after [Alloc 12; Alloc 28]) = Ok (0, st2)
       /\ alloc_only st2 [16] 4080
       /\ first_block st2 = first_block (state_after [Alloc 12])
       /\ total_mem_size st2 = total_mem_size (state_after [Alloc 12])
       /\ forall f, Mem_Dump (length [16] + 2 + f) st2
                    = Mem_Dump (length [16] + 2 + f) (state_after [Alloc 12]).
Proof.
  assert (H1 : arena_ok (state_after [Alloc 12])) by evaluate.
  assert (H2 : alloc_only (state_after [Alloc 12]) [16] 4080) by evaluate.
  assert (H3 : Int.in_range 28) by evaluate.
  assert (H4 : Mem_Alloc 3 28 (state_after [Alloc 12])
               = Ok (65568, state_after [Alloc 12; Alloc 28])) by evaluate.
  assert (H5 : 65568 <> NULL) by evaluate.
  exact (conj H4
           (free_of_the_last_allocation_restores _ [16] 4080 28 3 65568 _
              H1 H2 H3 H4 H5)).
Defined.

(** The release of the first of two 32-byte blocks. *)
Lemma inner_free_takes_the_scan_off_the_block_list_witness :
  alloc_only (state_after [Alloc 28; Alloc 28]) ([] ++ 32 :: 32 :: []) 4032
  /\ exists st1,
       Mem_Free (free_start (state_after [Alloc 28; Alloc 28]) [] + 16)
                (state_after [Alloc 28; Alloc 28]) = Ok (0, st1)
       /\ layout st1 (busy_blocks [] ++ (false, 32)
                        :: busy_blocks (32 :: []) ++ [(false, 4032)])
       /\ (forall size,
             exists best,
               scan_steps (length (@nil Z) + 2) size NULL (first_block st1) st1
               = Ok ((best, free_start st1 [] + 32 + 32 - 2), st1))
       /\ free_start st1 [] + 32 + 32 - 2
          < first_block st1 + total_mem_size st1
       /\ (free_start st1 [] + 32 + 32 - 2) mod 4 = 2.
Proof.
  assert (H1 : arena_ok (state_after [Alloc 28; Alloc 28])) by evaluate.
  assert (H2 : alloc_only (state_after [Alloc 28; Alloc 28])
                 ([] ++ 32 :: 32 :: []) 4032) by evaluate.
  assert (H3 : 16 <= 32) by evaluate.
  exact (conj H2 (inner_free_takes_the_scan_off_the_block_list _ [] 32 32 []
                    4032 H1 H2 H3)).
Defined.

(** The release of the first of two 8-byte blocks. *)
Lemma Mem_Free_of_a_small_first_block_faults_witness :
  alloc_only (state_after [Alloc 4; Alloc 4]) [8; 8] 4080
  /\ Mem_Free (first_block (state_after [Alloc 4; Alloc 4]) + 16)
              (state_after [Alloc 4; Alloc 4])
     = Fault (OutOfBounds (first_block (state_after [Alloc 4; Alloc 4])
                           + 8 - 16)).
Proof.
  assert (H1 : arena_ok (state_after [Alloc 4; Alloc 4])) by evaluate.
  assert (H2 : alloc_only (state_after [Alloc 4; Alloc 4]) [8; 8] 4080)
    by evaluate.
  assert (H3 : 8 < 16) by evaluate.
  exact (conj H2 (Mem_Free_of_a_small_first_block_faults _ 8 8 [] 4080
                    H1 H2 H3)).
Defined.

(** The scan for 16 bytes after the release of the first of two 32-byte
    blocks. *)
Lemma Mem_Alloc_scan_leaves_the_block_list_witness :
  layout (state_after [Alloc 28; Alloc 28; Free 0])
         (busy_blocks [] ++ (false, 32) :: (true, 32) :: [(false, 4032)])
  /\ scan_steps 0 16 NULL 65536 (state_after [Alloc 28; Alloc 28; Free 0])
     = Ok ((NULL, 65536), state_after [Alloc 28; Alloc 28; Free 0])
  /\ scan_step 16 NULL 65536 (state_after [Alloc 28; Alloc 28; Free 0])
     = Ok ((65536, 65568), state_after [Alloc 28; Alloc 28; Free 0])
  /\ (exists best,
        scan_steps 2 16 NULL 65536 (state_after [Alloc 28; Alloc 28; Free 0])
        = Ok ((best, 65598), state_after [Alloc 28; Alloc 28; Free 0]))
  /\ 65598 < 69632
  /\ 65598 mod 4 = 2.
Proof.
  assert (H1 : arena_ok (state_after [Alloc 28; Alloc 28; Free 0]))
    by evaluate.
  assert (H2 : layout (state_after [Alloc 28; Alloc 28; Free 0])
                 (busy_blocks [] ++ (false, 32) :: (true, 32)
                    :: [(false, 4032)])) by evaluate.
  exact (conj H2 (Mem_Alloc_scan_leaves_the_block_list _ [] 32 true 32
                    [(false, 4032)] 16 H1 H2)).
Defined.
